(** * The live test viewer: polling, accumulation and derived metrics

    A shallow embedding of [src/pages/Renault/LiveTestViewer.tsx].

    The component keeps six [useState] cells and one [useRef] cell.  An
    effect keyed on [live], [testId] and [system] owns a [setInterval]
    timer whose asynchronous callback fetches [/live_series] and, on a
    non-empty answer, appends the rows.  The browser's event loop is
    single-threaded, so a run of the page is a sequence of events (user
    input, a timer firing, a promise settling); each event is handled
    atomically by [step] below.

    JavaScript numbers are IEEE-754 binary64 values: the channel readings
    are primitive floats, and [number | null] is [option float].  Sample
    indices and test identifiers are integers sent by the backend and are
    only copied and compared, so they are [Z]. *)

From Stdlib Require Import ZArith String List Bool Lia PrimFloat.
Import ListNotations.

Local Open Scope Z_scope.

(** ** Data model *)

(** [type Test = { id: number; name: string }] *)
Record Test := mkTest { t_id : Z; t_name : string }.

(** [useState<1 | 2 | 3>(1)] *)
Inductive System := Sys1 | Sys2 | Sys3.

Definition System_eqb (a b : System) : bool :=
  match a, b with
  | Sys1, Sys1 | Sys2, Sys2 | Sys3, Sys3 => true
  | _, _ => false
  end.

(** [type Point]: every channel is [number | null]; [None] is [null]
    (or a field missing from the JSON row, which [!= null] treats alike). *)
Record Point := mkPoint {
  idx : Z;
  t_hour : float;
  rpm : option float;
  cons : option float;
  t1 : option float;
  t2 : option float;
  t3 : option float;
  b1 : option float;
  b2 : option float;
  b3 : option float;
  b4 : option float;
  l1 : option float;
  l2 : option float;
  sup : option float
}.

(** One element of [chartData]: the spread [...p] and the four added keys. *)
Record ChartPoint := mkChartPoint {
  point : Point;
  current_a : option float;
  vdrop : option float;
  hv_minus_avg : option float;
  hv_plus_avg : option float
}.

(** ** Metric derivation ([chartData], lines 84-97) *)

Module Derive.

Local Open Scope float_scope.

(** The body of the [data.map] callback. *)
Definition derive (p : Point) : ChartPoint :=
  {| point := p;
     current_a := cons p;
     vdrop :=
       match t1 p, t2 p, t3 p with
       | Some a, Some b, Some c => Some ((a + b + c) / 3)
       | _, _, _ => None
       end;
     hv_minus_avg :=
       match b1 p, b2 p with
       | Some a, Some b => Some ((a + b) / 2)
       | _, _ => None
       end;
     hv_plus_avg :=
       match b3 p, b4 p with
       | Some a, Some b => Some ((a + b) / 2)
       | _, _ => None
       end |}.

Definition chartData (data : list Point) : list ChartPoint := map derive data.

(** The specification's words: the arithmetic mean of three, and of two,
    readings, in binary64 arithmetic. *)
Definition mean3 (x y z : float) : float := (x + y + z) / 3.
Definition mean2 (x y : float) : float := (x + y) / 2.

(** A sample with only the voltage taps and brush readings filled in. *)
Definition sample (i : Z) (v1 v2 v3 h1 h2 h3 h4 : option float) : Point :=
  {| idx := i; t_hour := 0; rpm := None; cons := None;
     t1 := v1; t2 := v2; t3 := v3;
     b1 := h1; b2 := h2; b3 := h3; b4 := h4;
     l1 := None; l2 := None; sup := None |}.

End Derive.

(** ** Component state (lines 34-41) *)

(** The six [useState] cells and [lastIdxRef.current]. *)
Record Comp := mkComp {
  tests : list Test;
  testId : option Z;
  system : System;
  live : bool;
  data : list Point;
  lastUpdate : string;
  lastIdxRef : Z
}.

Definition initial : Comp :=
  {| tests := []; testId := None; system := Sys1; live := false;
     data := []; lastUpdate := "—"%string; lastIdxRef := 0 |}.

(** What a handler does to the component: a call of a state setter
    (which schedules a re-render) or a write to the ref (which does not).
    [SetData] carries the updater; [setData([])] is the constant one. *)
Inductive Action :=
  | SetTests (ts : list Test)
  | SetTestId (v : Z)
  | SetSystem (s : System)
  | SetLive (b : bool)
  | SetData (f : list Point -> list Point)
  | SetLastUpdate (s : string)
  | WriteLastIdx (z : Z).

Definition is_setState (a : Action) : bool :=
  match a with
  | WriteLastIdx _ => false
  | _ => true
  end.

(** A handler triggers a re-render iff it calls some state setter. *)
Definition rerenders (acts : list Action) : bool := existsb is_setState acts.

Definition apply_action (c : Comp) (a : Action) : Comp :=
  match a with
  | SetTests ts =>
      mkComp ts (testId c) (system c) (live c) (data c) (lastUpdate c) (lastIdxRef c)
  | SetTestId v =>
      mkComp (tests c) (Some v) (system c) (live c) (data c) (lastUpdate c) (lastIdxRef c)
  | SetSystem s =>
      mkComp (tests c) (testId c) s (live c) (data c) (lastUpdate c) (lastIdxRef c)
  | SetLive b =>
      mkComp (tests c) (testId c) (system c) b (data c) (lastUpdate c) (lastIdxRef c)
  | SetData f =>
      mkComp (tests c) (testId c) (system c) (live c) (f (data c)) (lastUpdate c) (lastIdxRef c)
  | SetLastUpdate s =>
      mkComp (tests c) (testId c) (system c) (live c) (data c) s (lastIdxRef c)
  | WriteLastIdx z =>
      mkComp (tests c) (testId c) (system c) (live c) (data c) (lastUpdate c) z
  end.

(** Once the component is unmounted React drops state updates; the ref
    object is still reachable from the pending callback and is written. *)
Definition commit (mounted : bool) (c : Comp) (acts : list Action) : Comp :=
  fold_left apply_action
    (if mounted then acts else filter (fun a => negb (is_setState a)) acts) c.

(** ** Handlers *)

(** Lines 47-52.  [captured] is the [testId] of the render whose effect
    issued the request. *)
Definition onTestsLoaded (captured : option Z) (res : list Test) : list Action :=
  SetTests res ::
  match res, captured with
  | t :: _, None => [SetTestId (t_id t)]
  | _, _ => []
  end.

(** Lines 124 and 141. *)
Definition onSelectTest (v : Z) : list Action := [SetTestId v].
Definition onSelectSystem (s : System) : list Action := [SetSystem s].

(** Lines 153-157. *)
Definition onStartLive : list Action :=
  [SetData (fun _ => []); WriteLastIdx 0; SetLive true].

(** Line 165. *)
Definition onStop : list Action := [SetLive false].

(** Lines 71-75, the continuation after [await]: [now] is
    [new Date().toLocaleTimeString()]. *)
Definition onLiveSeries (rows : list Point) (now : string) : list Action :=
  match rows with
  | [] => []
  | p :: tl =>
      [WriteLastIdx (idx (last tl p));
       SetData (fun prev => prev ++ rows);
       SetLastUpdate now]
  end.

(** The Series Store's [append], as the component performs it. *)
Definition append (c : Comp) (rows : list Point) (now : string) : Comp :=
  commit true c (onLiveSeries rows now).

(** ** The rendered controls (lines 99-191) *)

(** JavaScript's [!testId] for [number | null]. *)
Definition falsy (v : option Z) : bool :=
  match v with
  | None => true
  | Some z => z =? 0
  end.

Record View := mkView {
  v_lastUpdate : string;
  v_test_disabled : bool;
  v_test_value : option Z;
  v_test_options : list Test;
  v_system_disabled : bool;
  v_system_value : System;
  v_start_disabled : bool;
  v_stop_disabled : bool;
  v_live_banner : bool;
  v_charts : list ChartPoint
}.

Definition render (c : Comp) : View :=
  {| v_lastUpdate := lastUpdate c;
     v_test_disabled := live c;
     v_test_value := testId c;
     v_test_options := tests c;
     v_system_disabled := live c;
     v_system_value := system c;
     v_start_disabled := falsy (testId c) || live c;
     v_stop_disabled := negb (live c);
     v_live_banner := live c;
     v_charts := Derive.chartData (data c) |}.

(** ** The page in the browser: timers and pending requests *)

(** Line 76 and line 67. *)
Definition POLL_PERIOD_MS : Z := 2000.
Definition LIMIT : Z := 500.

(** A live [setInterval]: the handle the browser returned, the delay, and
    the [testId] and [system] its callback closes over. *)
Record Timer := mkTimer {
  tid : nat;
  delay : Z;
  tm_test : Z;
  tm_system : System
}.

(** A pending [api.get("/live_series", {params})]; [r_timer] is the
    interval whose callback is suspended at the [await]. *)
Record Request := mkRequest {
  r_timer : nat;
  test_id : Z;
  r_system : System;
  from_idx : Z;
  limit : Z
}.

Record World := mkWorld {
  comp : Comp;
  mounted : bool;
  testsPending : bool;
  timer : option Timer;
  nextTimer : nat;
  inflight : list Request
}.

(** After mount: the [/tests] request is out, the polling effect ran with
    [live = false] and returned at line 59. *)
Definition init : World :=
  {| comp := initial; mounted := true; testsPending := true;
     timer := None; nextTimer := 1; inflight := [] |}.

Definition testId_eqb (a b : option Z) : bool :=
  match a, b with
  | None, None => true
  | Some x, Some y => x =? y
  | _, _ => false
  end.

(** The dependency array of line 79. *)
Definition deps_eqb (c c' : Comp) : bool :=
  Bool.eqb (live c) (live c')
  && testId_eqb (testId c) (testId c')
  && System_eqb (system c) (system c').

(** Lines 58-79, run after a render that made the component [c']: when
    a dependency changed the previous cleanup clears its interval, then
    the body either returns at line 59 or starts a new interval. *)
Definition polling_effect (w : World) (c' : Comp) : option Timer * nat :=
  if deps_eqb (comp w) c' then (timer w, nextTimer w)
  else
    match live c', testId c' with
    | true, Some t =>
        (Some (mkTimer (nextTimer w) POLL_PERIOD_MS t (system c')),
         S (nextTimer w))
    | _, _ => (None, nextTimer w)
    end.

(** Run a handler's actions, then the effects of the resulting render. *)
Definition dispatch (w : World) (acts : list Action) : World :=
  let c' := commit (mounted w) (comp w) acts in
  let e := polling_effect w c' in
  mkWorld c' (mounted w) (testsPending w) (fst e) (snd e) (inflight w).

Definition with_testsPending (w : World) (b : bool) : World :=
  mkWorld (comp w) (mounted w) b (timer w) (nextTimer w) (inflight w).

Definition with_inflight (w : World) (l : list Request) : World :=
  mkWorld (comp w) (mounted w) (testsPending w) (timer w) (nextTimer w) l.

(** The view goes away: every effect's cleanup runs. *)
Definition unmount (w : World) : World :=
  mkWorld (comp w) false (testsPending w) None (nextTimer w) (inflight w).

Definition remove_nth {A} (k : nat) (l : list A) : list A :=
  firstn k l ++ skipn (S k) l.

(** Lines 62-69: the request the interval's callback sends when it fires. *)
Definition next_request (w : World) : option Request :=
  match timer w with
  | Some t =>
      Some (mkRequest (tid t) (tm_test t) (tm_system t)
              (lastIdxRef (comp w)) LIMIT)
  | None => None
  end.

Inductive Event :=
  | TestsLoaded (res : list Test)
  | TestsFailed
  | SelectTest (v : Z)
  | SelectSystem (s : System)
  | ClickStart
  | ClickStop
  | Tick
  | Resolve (k : nat) (rows : list Point) (now : string)
  | Reject (k : nat)
  | Unmount.

(** One turn of the event loop; [None] when the event cannot happen
    (a disabled control, no live interval, no such pending request). *)
Definition step (w : World) (e : Event) : option World :=
  let c := comp w in
  let v := render c in
  match e with
  | TestsLoaded res =>
      if testsPending w
      then Some (dispatch (with_testsPending w false)
                   (onTestsLoaded (testId initial) res))
      else None
  | TestsFailed =>
      if testsPending w then Some (with_testsPending w false) else None
  | SelectTest x =>
      if mounted w && negb (v_test_disabled v)
         && existsb (fun t => t_id t =? x) (v_test_options v)
      then Some (dispatch w (onSelectTest x))
      else None
  | SelectSystem s =>
      if mounted w && negb (v_system_disabled v)
      then Some (dispatch w (onSelectSystem s))
      else None
  | ClickStart =>
      if mounted w && negb (v_start_disabled v)
      then Some (dispatch w onStartLive)
      else None
  | ClickStop =>
      if mounted w && negb (v_stop_disabled v)
      then Some (dispatch w onStop)
      else None
  | Tick =>
      match next_request w with
      | Some r => Some (with_inflight w (inflight w ++ [r]))
      | None => None
      end
  | Resolve k rows now =>
      match nth_error (inflight w) k with
      | Some _ =>
          Some (dispatch (with_inflight w (remove_nth k (inflight w)))
                  (onLiveSeries rows now))
      | None => None
      end
  | Reject k =>
      match nth_error (inflight w) k with
      | Some _ => Some (with_inflight w (remove_nth k (inflight w)))
      | None => None
      end
  | Unmount =>
      if mounted w then Some (unmount w) else None
  end.

Fixpoint run (w : World) (tr : list Event) : option World :=
  match tr with
  | [] => Some w
  | e :: tr' =>
      match step w e with
      | Some w' => run w' tr'
      | None => None
      end
  end.

Definition reachable (w : World) : Prop := exists tr, run init tr = Some w.

(** The poller's two states. *)
Definition armed (w : World) : bool :=
  match timer w with
  | Some _ => true
  | None => false
  end.

(** A pending request is stale when the interval that issued it is no
    longer the live one. *)
Definition stale (w : World) (r : Request) : bool :=
  match timer w with
  | Some t => negb (Nat.eqb (tid t) (r_timer r))
  | None => true
  end.

(** ** The backend's side of [/live_series] *)

Fixpoint ascending (l : list Z) : bool :=
  match l with
  | a :: (b :: _) as tl => (a <? b) && ascending tl
  | _ => true
  end.

(** Modelled from the spec: the handler of [GET /live_series] lives in the
    backend, outside this repository.  Its answer holds samples with
    [idx > from_idx], in ascending order, at most [limit] of them. *)
Definition live_series_ok (r : Request) (rows : list Point) : bool :=
  forallb (fun p => from_idx r <? idx p) rows
  && ascending (map idx rows)
  && (Z.of_nat (length rows) <=? limit r).

(** ** Sessions without overlap *)

(** One tick whose request is answered before anything else happens. *)
Definition poll (w : World) (rows : list Point) (now : string) : option World :=
  match step w Tick with
  | Some w1 => step w1 (Resolve (length (inflight w)) rows now)
  | None => None
  end.

Fixpoint polls (w : World) (bs : list (list Point * string)) : option World :=
  match bs with
  | [] => Some w
  | (rows, now) :: bs' =>
      match poll w rows now with
      | Some w' => polls w' bs'
      | None => None
      end
  end.

(** Every answer of the session is non-empty and honours the backend's
    contract for the request it answers. *)
Fixpoint honest (w : World) (bs : list (list Point * string)) : bool :=
  match bs with
  | [] => true
  | (rows, now) :: bs' =>
      match next_request w, poll w rows now with
      | Some r, Some w' =>
          negb (Nat.eqb (length rows) 0) && live_series_ok r rows && honest w' bs'
      | _, _ => false
      end
  end.

(** [m] is the largest index among [l]. *)
Definition is_max_idx (m : Z) (l : list Point) : Prop :=
  In m (map idx l) /\ Forall (fun p => idx p <= m) l.

(** Trace counters. *)
Definition is_tick (e : Event) : bool :=
  match e with Tick => true | _ => false end.

Definition is_settle (e : Event) : bool :=
  match e with Resolve _ _ _ | Reject _ => true | _ => false end.

Definition issued (tr : list Event) : nat := length (filter is_tick tr).
Definition settled (tr : list Event) : nat := length (filter is_settle tr).

(** ** Concrete runs used below *)

Module Scenario.

Definition testA : Test := mkTest 1 "bench A".
Definition testB : Test := mkTest 2 "bench B".
Definition test0 : Test := mkTest 0 "bench 0".

(** A row with index [i] and no channel recorded. *)
Definition row (i : Z) : Point :=
  Derive.sample i None None None None None None None.

(** The page with two tests listed, live mode started on the first. *)
Definition started : list Event := [TestsLoaded [testA; testB]; ClickStart].

(** Start on test 1, one fetch goes out, Stop, switch to test 2, Start. *)
Definition stale_trace : list Event :=
  [TestsLoaded [testA; testB]; ClickStart; Tick;
   ClickStop; SelectTest 2; ClickStart].

(** Two periods elapse before the first answer. *)
Definition overlap_trace : list Event :=
  [TestsLoaded [testA; testB]; ClickStart; Tick; Tick].

(** The two overlapping fetches are answered in the opposite order; the
    later-issued one saw one more row. *)
Definition crossed_trace : list Event :=
  overlap_trace
  ++ [Resolve 1 [row 1; row 2; row 3] "10:00:02";
      Resolve 0 [row 1; row 2] "10:00:03"].

(** Two rows arrive, live mode is stopped, the other test is selected. *)
Definition reselect_trace : list Event :=
  [TestsLoaded [testA; testB]; ClickStart; Tick;
   Resolve 0 [row 1; row 2] "10:00:02"; ClickStop; SelectTest 2].

(** One fetch goes out and fails. *)
Definition failure_trace : list Event := started ++ [Tick; Reject 0].

(** The backend lists a test whose id is 0 and the user picks it. *)
Definition zero_trace : list Event :=
  [TestsLoaded [testA; test0]; SelectTest 0].

(** Two answers in a row, none overlapping. *)
Definition two_batches : list (list Point * string) :=
  [([row 1; row 2], "10:00:02"%string); ([row 3; row 5], "10:00:04"%string)].

Definition world_after (tr : list Event) : World :=
  match run init tr with
  | Some w => w
  | None => init
  end.

End Scenario.

(** ** Runs in which the backend keeps its contract *)

Definition answer_ok (w : World) (e : Event) : bool :=
  match e with
  | Resolve k rows _ =>
      match nth_error (inflight w) k with
      | Some r => live_series_ok r rows
      | None => false
      end
  | _ => true
  end.

Fixpoint contract_run (w : World) (tr : list Event) : bool :=
  match tr with
  | [] => true
  | e :: tr' =>
      match step w e with
      | Some w' => answer_ok w e && contract_run w' tr'
      | None => false
      end
  end.

(** ** Statements read off the specification, to be tested on the code *)

Module Claimed.

(** A response of a stale request never touches the store or the cursor. *)
Definition stale_discarded : Prop :=
  forall tr w k r rows now w',
    run init tr = Some w ->
    nth_error (inflight w) k = Some r ->
    stale w r = true ->
    step w (Resolve k rows now) = Some w' ->
    data (comp w') = data (comp w)
    /\ lastIdxRef (comp w') = lastIdxRef (comp w).

(** At most one fetch is pending at any time. *)
Definition one_in_flight : Prop :=
  forall tr w, run init tr = Some w -> (length (inflight w) <= 1)%nat.

(** No two pending requests carry the same cursor. *)
Definition no_shared_cursor : Prop :=
  forall tr w i j ri rj,
    run init tr = Some w ->
    nth_error (inflight w) i = Some ri ->
    nth_error (inflight w) j = Some rj ->
    i <> j ->
    from_idx ri <> from_idx rj.

(** Start Live and every change of the selection empty the store and
    zero the cursor. *)
Definition resets (e : Event) : Prop :=
  forall tr w w',
    run init tr = Some w ->
    step w e = Some w' ->
    data (comp w') = [] /\ lastIdxRef (comp w') = 0.

Definition selection_resets : Prop :=
  resets ClickStart
  /\ (forall v, resets (SelectTest v))
  /\ (forall s, resets (SelectSystem s)).

(** After every non-empty append of a run with an honest backend the
    cursor is the largest index in the store. *)
Definition cursor_is_max : Prop :=
  forall tr w k rows now w',
    run init tr = Some w ->
    contract_run init (tr ++ [Resolve k rows now]) = true ->
    rows <> [] ->
    step w (Resolve k rows now) = Some w' ->
    is_max_idx (lastIdxRef (comp w')) (data (comp w')).

(** A failed fetch shows up in what the page renders. *)
Definition failure_surfaced : Prop :=
  forall tr w k w',
    run init tr = Some w ->
    step w (Reject k) = Some w' ->
    render (comp w') <> render (comp w).

End Claimed.

(** ** What holds of every page state that a run can produce *)

Record Inv (w : World) : Prop := mkInv {
  (* live mode is on only for a truthy test id *)
  inv_live_truthy :
    live (comp w) = true -> falsy (testId (comp w)) = false;
  (* until [/tests] answers there is nothing to select *)
  inv_pending :
    testsPending w = true ->
    live (comp w) = false /\ testId (comp w) = None /\ tests (comp w) = [];
  (* a live interval belongs to the current selection *)
  inv_timer :
    forall t, timer w = Some t ->
      mounted w = true /\ live (comp w) = true
      /\ testId (comp w) = Some (tm_test t) /\ system (comp w) = tm_system t
      /\ (tid t < nextTimer w)%nat;
  (* while mounted, live mode means an interval is running *)
  inv_armed :
    mounted w = true -> live (comp w) = true -> armed w = true;
  (* handles are never reused *)
  inv_fresh :
    Forall (fun r => (r_timer r < nextTimer w)%nat) (inflight w)
}.

(** The selector and the list it offers (lines 46-53 and 120-131). *)
Record Listed (w : World) : Prop := mkListed {
  (* the selected test is one of the listed ones *)
  listed_selected :
    forall v, testId (comp w) = Some v -> In v (map t_id (tests (comp w)));
  (* a non-empty list always has a selected entry *)
  listed_nonempty :
    tests (comp w) <> [] -> testId (comp w) <> None
}.

(** ** The stored-series viewer ([src/pages/Renault/TestViewer.tsx]) *)

Module TestViewer.

Local Open Scope float_scope.

(** [type BackendSeriesPoint], lines 19-40.  Here [idx] enters the
    arithmetic of line 242, so it is the binary64 number it is in
    JavaScript; optional and nullable fields are [option]. *)
Record BackendSeriesPoint := mkSeriesPoint {
  s_idx : float;
  s_t_sec : option float;
  s_hours : option float;
  s_rpm : option float;
  s_current_a : option float;
  s_vdrop : option float;
  s_t1 : option float;
  s_t2 : option float;
  s_t3 : option float;
  s_b1 : option float;
  s_b2 : option float;
  s_b3 : option float;
  s_b4 : option float;
  s_l1 : option float;
  s_l2 : option float;
  s_sup : option float
}.

(** [type UiPoint], lines 42-48: the spread [...p] with [t_hour], [vdrop]
    and the two averages set on top. *)
Record UiPoint := mkUiPoint {
  u_raw : BackendSeriesPoint;
  u_t_hour : float;
  u_vdrop : option float;
  u_hv_minus_avg : option float;
  u_hv_plus_avg : option float
}.

(** Line 180; the decimal literal denotes the nearest binary64 value, as
    it does in JavaScript. *)
Definition DT_SEC : float := 0x1.999999999999ap-5.

(** Lines 240-270, the body of the [series.map] callback. *)
Definition toUiPoint (p : BackendSeriesPoint) : UiPoint :=
  let tSec :=
    match s_t_sec p with
    | Some t => t
    | None => s_idx p * DT_SEC
    end in
  let hours :=
    match s_hours p with
    | Some h => if is_finite h then h else tSec / 3600
    | None => tSec / 3600
    end in
  {| u_raw := p;
     u_t_hour := hours;
     u_vdrop :=
       match s_vdrop p with
       | Some v => Some v
       | None =>
           match s_t1 p, s_t2 p, s_t3 p with
           | Some a, Some b, Some c => Some ((a + b + c) / 3)
           | _, _, _ => None
           end
       end;
     u_hv_minus_avg :=
       match s_b1 p, s_b2 p with
       | Some a, Some b => Some ((a + b) / 2)
       | _, _ => None
       end;
     u_hv_plus_avg :=
       match s_b3 p, s_b4 p with
       | Some a, Some b => Some ((a + b) / 2)
       | _, _ => None
       end |}.

(** The same seven readings in a stored-series row and in a live row. *)
Definition same_readings (p : BackendSeriesPoint) (q : Point) : Prop :=
  s_t1 p = t1 q /\ s_t2 p = t2 q /\ s_t3 p = t3 q
  /\ s_b1 p = b1 q /\ s_b2 p = b2 q /\ s_b3 p = b3 q /\ s_b4 p = b4 q.

End TestViewer.

(** ** The sidebar menu ([src/layout/AppSidebar.tsx]) *)

Module Sidebar.

Inductive NavItem := NavUpload | NavTests | NavLive | NavCharacterization.

(** The [to] of each [Link], lines 51-85. *)
Definition to (i : NavItem) : string :=
  match i with
  | NavUpload => "/upload"
  | NavTests => "/tests"
  | NavLive => "/live"
  | NavCharacterization => "/characterization"
  end.

(** The argument each [Link] passes to [itemClass]. *)
Definition active (i : NavItem) (pathname : string) : bool :=
  match i with
  | NavUpload => String.eqb pathname "/upload" || String.eqb pathname "/"
  | NavTests => String.eqb pathname "/tests"
  | NavLive => String.eqb pathname "/live"
  | NavCharacterization => String.eqb pathname "/characterization"
  end.

End Sidebar.

(** ** The characterization page ([src/pages/Renault/Characteristics.tsx]) *)

Module Characterization.

Inductive Life := bol | mid | eol.

(** An object with the three keys [bol], [mid], [eol] (lines 149-150). *)
Record PerLife (A : Type) := mkPerLife { at_bol : A; at_mid : A; at_eol : A }.
Arguments mkPerLife {A}.
Arguments at_bol {A}.
Arguments at_mid {A}.
Arguments at_eol {A}.

Definition get {A} (s : PerLife A) (l : Life) : A :=
  match l with
  | bol => at_bol s
  | mid => at_mid s
  | eol => at_eol s
  end.

(** [{ ...s, [life]: v }] *)
Definition set {A} (s : PerLife A) (l : Life) (v : A) : PerLife A :=
  match l with
  | bol => mkPerLife v (at_mid s) (at_eol s)
  | mid => mkPerLife (at_bol s) v (at_eol s)
  | eol => mkPerLife (at_bol s) (at_mid s) v
  end.

Section Page.

(** The payload of [/characterization], which the page only stores. *)
Variable CharResponse : Type.

(** Lines 131 and 145-150; the three responses are three state cells. *)
Record State := mkState {
  selected : option Z;
  resp : PerLife (option CharResponse);
  loading : PerLife bool;
  error : PerLife string
}.

(** [loadLife] up to its [await] (lines 159-162). *)
Definition loadLife_begin (st : State) (life : Life) : State :=
  match selected st with
  | None => st
  | Some _ =>
      mkState (selected st) (resp st)
        (set (loading st) life true) (set (error st) life ""%string)
  end.

(** The request succeeded: lines 179-181, then [finally]. *)
Definition loadLife_ok (st : State) (life : Life) (res : CharResponse) : State :=
  mkState (selected st) (set (resp st) life (Some res))
    (set (loading st) life false) (error st).

(** [err?.response?.data?.detail || err.message] *)
Definition detail_or_message (detail : option string) (message : string) : string :=
  match detail with
  | Some d => if String.eqb d "" then message else d
  | None => message
  end.

(** The request failed: lines 183-188, then [finally]. *)
Definition loadLife_fail (st : State) (life : Life)
    (detail : option string) (message : string) : State :=
  mkState (selected st) (set (resp st) life None)
    (set (loading st) life false)
    (set (error st) life ("❌ " ++ detail_or_message detail message)%string).

(** What a [GridTable] of that life shows in its corner (lines 67-68). *)
Definition shows_error (st : State) (life : Life) : bool :=
  negb (get (loading st) life) && negb (String.eqb (get (error st) life) "").

End Page.

Arguments selected {CharResponse}.
Arguments resp {CharResponse}.
Arguments loading {CharResponse}.
Arguments error {CharResponse}.
Arguments loadLife_begin {CharResponse}.
Arguments loadLife_ok {CharResponse}.
Arguments loadLife_fail {CharResponse}.
Arguments shows_error {CharResponse}.

End Characterization.

(** ** The upload page ([src/pages/Renault/UploadCsv.tsx]) *)

Module Upload.

(** File names are modelled over ASCII characters; on those
    [String.prototype.toLowerCase] changes exactly the letters A-Z. *)
Definition ascii_only (s : string) : bool :=
  forallb (fun c => (Ascii.nat_of_ascii c <? 128)%nat) (list_ascii_of_string s).

Definition lower (c : Ascii.ascii) : Ascii.ascii :=
  let n := Ascii.nat_of_ascii c in
  if ((65 <=? n) && (n <=? 90))%nat then Ascii.ascii_of_nat (n + 32) else c.

Fixpoint toLowerCase (s : string) : string :=
  match s with
  | EmptyString => EmptyString
  | String c s' => String (lower c) (toLowerCase s')
  end.

(** [s.endsWith(suffix)] *)
Definition endsWith (s suffix : string) : bool :=
  let n := String.length s in
  let m := String.length suffix in
  (m <=? n)%nat && String.eqb (substring (n - m) m s) suffix.

Record File := mkFile { f_name : string; f_type : string; f_size : Z }.

(** Lines 8-16. *)
Definition isAllowed (file : File) : bool :=
  let name := toLowerCase (f_name file) in
  endsWith name ".csv"
  || endsWith name ".txt"
  || endsWith name ".xlsx"
  || endsWith name ".xls".

Definition EXTENSIONS : list string := [".csv"; ".txt"; ".xlsx"; ".xls"]%string.

Inductive MsgType := ok | bad | info.

(** The [file] cell and the kind of the message shown. *)
Record State := mkState { file : option File; msg : option MsgType }.

Definition initial : State := {| file := None; msg := None |}.

Inductive Event :=
  | SelectFile (f : option File)   (* the input's onChange, or a drop *)
  | Reset
  | ClickUpload.

(** Lines 29-41. *)
Definition onSelectFile (st : State) (f : option File) : State :=
  match f with
  | None => st
  | Some f' =>
      if isAllowed f' then mkState (Some f') (Some info)
      else mkState None (Some bad)
  end.

(** Lines 143-147. *)
Definition onReset (st : State) : State := mkState None None.

(** Lines 50-66: the state right after the click, and the file put in
    the form data of the [POST /upload], if any.  The answer to the
    request only changes the message and the loading flag, which gates
    the buttons further; neither is needed to say which files are sent. *)
Definition upload (st : State) : State * option File :=
  match file st with
  | None => (mkState None (Some bad), None)
  | Some f => (mkState (Some f) (Some info), Some f)
  end.

Definition step (st : State) (e : Event) : State * option File :=
  match e with
  | SelectFile f => (onSelectFile st f, None)
  | Reset => (onReset st, None)
  | ClickUpload => upload st
  end.

(** The files posted along a sequence of events. *)
Fixpoint posted (st : State) (es : list Event) : list File :=
  match es with
  | [] => []
  | e :: es' =>
      let r := step st e in
      match snd r with
      | Some f => f :: posted (fst r) es'
      | None => posted (fst r) es'
      end
  end.

End Upload.

(** * Properties *)

(** ** Derived metrics *)

Section DeriveFacts.

Import Derive.

Variable p : Point.

Lemma derive_keeps_sample : point (derive p) = p /\ current_a (derive p) = cons p.
Proof. split; reflexivity. Qed.

Lemma vdrop_present x y z :
  t1 p = Some x -> t2 p = Some y -> t3 p = Some z ->
  vdrop (derive p) = Some (mean3 x y z).
Proof. intros H1 H2 H3. unfold derive; simpl. now rewrite H1, H2, H3. Qed.

Lemma vdrop_absent :
  t1 p = None \/ t2 p = None \/ t3 p = None -> vdrop (derive p) = None.
Proof.
  unfold derive; simpl.
  intros [H | [H | H]]; rewrite H;
    destruct (t1 p); try reflexivity; destruct (t2 p); reflexivity.
Qed.

Lemma hv_minus_present x y :
  b1 p = Some x -> b2 p = Some y -> hv_minus_avg (derive p) = Some (mean2 x y).
Proof. intros H1 H2. unfold derive; simpl. now rewrite H1, H2. Qed.

Lemma hv_minus_absent :
  b1 p = None \/ b2 p = None -> hv_minus_avg (derive p) = None.
Proof.
  unfold derive; simpl.
  intros [H | H]; rewrite H; destruct (b1 p); reflexivity.
Qed.

Lemma hv_plus_present x y :
  b3 p = Some x -> b4 p = Some y -> hv_plus_avg (derive p) = Some (mean2 x y).
Proof. intros H1 H2. unfold derive; simpl. now rewrite H1, H2. Qed.

Lemma hv_plus_absent :
  b3 p = None \/ b4 p = None -> hv_plus_avg (derive p) = None.
Proof.
  unfold derive; simpl.
  intros [H | H]; rewrite H; destruct (b3 p); reflexivity.
Qed.

End DeriveFacts.

(** The two scenarios of the specification, in binary64. *)
Example derive_1_2_3 :
  vdrop (Derive.derive
           (Derive.sample 7 (Some 1%float) (Some 2%float) (Some 3%float)
              None None None None))
  = Some 2%float.
Proof. reflexivity. Qed.

Example derive_1_null_3 :
  vdrop (Derive.derive
           (Derive.sample 7 (Some 1%float) None (Some 3%float)
              None None None None))
  = None.
Proof. reflexivity. Qed.

(** A zero stand-in for the missing tap would have given 4/3, not absence. *)
Example absent_is_not_zero :
  vdrop (Derive.derive
           (Derive.sample 7 (Some 1%float) None (Some 3%float)
              None None None None))
  <> vdrop (Derive.derive
              (Derive.sample 7 (Some 1%float) (Some 0%float) (Some 3%float)
                 None None None None)).
Proof. discriminate. Qed.

(** C3.  For every sample, [derive] yields a value (it is a total function
    with no effect): [vdrop] is the mean of the three voltage taps when all
    three are present and absent when any is absent; [hv_minus_avg] is the
    mean of brush readings 1 and 2 when both are present, else absent;
    [hv_plus_avg] is the mean of brush readings 3 and 4 when both are
    present, else absent.  The raw sample is carried along unchanged. *)
Theorem derive_correct (p : Point) :
  (forall x y z, t1 p = Some x -> t2 p = Some y -> t3 p = Some z ->
     vdrop (Derive.derive p) = Some (Derive.mean3 x y z))
  /\ (t1 p = None \/ t2 p = None \/ t3 p = None ->
      vdrop (Derive.derive p) = None)
  /\ (forall x y, b1 p = Some x -> b2 p = Some y ->
        hv_minus_avg (Derive.derive p) = Some (Derive.mean2 x y))
  /\ (b1 p = None \/ b2 p = None -> hv_minus_avg (Derive.derive p) = None)
  /\ (forall x y, b3 p = Some x -> b4 p = Some y ->
        hv_plus_avg (Derive.derive p) = Some (Derive.mean2 x y))
  /\ (b3 p = None \/ b4 p = None -> hv_plus_avg (Derive.derive p) = None)
  /\ point (Derive.derive p) = p.
Proof.
  repeat split.
  - apply vdrop_present.
  - apply vdrop_absent.
  - apply hv_minus_present.
  - apply hv_minus_absent.
  - apply hv_plus_present.
  - apply hv_plus_absent.
Qed.

Lemma derive_correct_witness :
  let p := Derive.sample 7 (Some 1%float) (Some 2%float) (Some 3%float)
             (Some 40%float) (Some 50%float) None (Some 60%float) in
  vdrop (Derive.derive p) = Some 2%float
  /\ hv_minus_avg (Derive.derive p) = Some 45%float
  /\ hv_plus_avg (Derive.derive p) = None.
Proof.
  intro p.
  destruct (derive_correct p) as (Hv & _ & Hm & _ & _ & Hp & _).
  split; [| split].
  - exact (Hv 1%float 2%float 3%float eq_refl eq_refl eq_refl).
  - exact (Hm 40%float 50%float eq_refl eq_refl).
  - apply Hp. left. reflexivity.
Defined.

(** ** Bookkeeping lemmas *)

Lemma testId_eqb_refl v : testId_eqb v v = true.
Proof. destruct v; simpl; [apply Z.eqb_refl | reflexivity]. Qed.

Lemma System_eqb_refl s : System_eqb s s = true.
Proof. destruct s; reflexivity. Qed.

Lemma deps_eqb_same c c' :
  live c' = live c -> testId c' = testId c -> system c' = system c ->
  deps_eqb c c' = true.
Proof.
  intros Hl Ht Hs. unfold deps_eqb. rewrite Hl, Ht, Hs.
  now rewrite Bool.eqb_reflx, testId_eqb_refl, System_eqb_refl.
Qed.

(** The response handler writes only [data], [lastUpdate] and the ref. *)
Lemma commit_onLiveSeries_frame m c rows now :
  let c' := commit m c (onLiveSeries rows now) in
  tests c' = tests c /\ testId c' = testId c
  /\ system c' = system c /\ live c' = live c.
Proof. destruct rows, m; simpl; repeat split. Qed.

Lemma dispatch_onLiveSeries w rows now :
  dispatch w (onLiveSeries rows now)
  = mkWorld (commit (mounted w) (comp w) (onLiveSeries rows now))
      (mounted w) (testsPending w) (timer w) (nextTimer w) (inflight w).
Proof.
  unfold dispatch, polling_effect.
  destruct (commit_onLiveSeries_frame (mounted w) (comp w) rows now)
    as (_ & Ht & Hs & Hl).
  now rewrite deps_eqb_same.
Qed.

Lemma nth_error_snoc {A} (l : list A) x : nth_error (l ++ [x]) (length l) = Some x.
Proof. induction l; simpl; auto. Qed.

Lemma remove_nth_snoc {A} (l : list A) x : remove_nth (length l) (l ++ [x]) = l.
Proof.
  unfold remove_nth. induction l as [| a l IH]; simpl; [reflexivity |].
  f_equal. exact IH.
Qed.

Lemma length_remove_nth {A} k (l : list A) x :
  nth_error l k = Some x -> S (length (remove_nth k l)) = length l.
Proof.
  unfold remove_nth. revert l. induction k as [| k IH]; intros [| a l] H;
    simpl in *; try discriminate.
  - reflexivity.
  - f_equal. now apply IH.
Qed.

Lemma append_data c rows now : data (append c rows now) = data c ++ rows.
Proof. destruct rows; simpl; [now rewrite app_nil_r | reflexivity]. Qed.

Lemma append_cursor c p tl now :
  lastIdxRef (append c (p :: tl) now) = idx (last tl p).
Proof. reflexivity. Qed.

Lemma comp_dispatch w acts :
  comp (dispatch w acts) = commit (mounted w) (comp w) acts.
Proof. reflexivity. Qed.

(** Open up a successful [step]: split on its guard and name the result. *)
Ltac step_inv H :=
  unfold step in H; cbv zeta in H;
  repeat match type of H with
    | (if ?b then _ else _) = Some _ =>
        let E := fresh "Hguard" in destruct b eqn:E; [| discriminate H]
    | match ?x with Some _ => _ | None => _ end = Some _ =>
        let E := fresh "Hsome" in destruct x eqn:E; [| discriminate H]
    end;
  injection H as H.

Lemma step_data_grows w e w' :
  step w e = Some w' -> e <> ClickStart ->
  exists more, data (comp w') = data (comp w) ++ more.
Proof.
  intros H Hne. destruct e; try congruence; step_inv H; subst w';
    try (exists []; rewrite app_nil_r; rewrite ?comp_dispatch;
         cbn [mounted comp with_testsPending with_inflight unmount];
         destruct (mounted w); try destruct res; reflexivity).
  rewrite dispatch_onLiveSeries. cbn [comp with_inflight mounted].
  destruct (mounted w).
  - exists rows. apply append_data.
  - exists []. rewrite app_nil_r. destruct rows; reflexivity.
Qed.

Lemma start_resets w w' :
  step w ClickStart = Some w' ->
  mounted w' = true /\ data (comp w') = [] /\ lastIdxRef (comp w') = 0
  /\ live (comp w') = true.
Proof.
  intros H. step_inv H. subst w'.
  apply andb_prop in Hguard as [Hm _]. rewrite comp_dispatch, Hm.
  cbn [mounted dispatch]. repeat split. exact Hm.
Qed.

(** The last-update text moves only when rows arrive. *)
Lemma lastUpdate_changes_only_on_rows w e w' :
  step w e = Some w' ->
  lastUpdate (comp w') <> lastUpdate (comp w) ->
  exists k p tl now, e = Resolve k (p :: tl) now.
Proof.
  intros H Hne. destruct e; step_inv H; subst w';
    try (exfalso; apply Hne; rewrite ?comp_dispatch;
         cbn [mounted comp with_testsPending with_inflight unmount];
         destruct (mounted w); try destruct res; reflexivity).
  destruct rows as [| p tl]; [| now exists k, p, tl, now].
  exfalso. apply Hne. rewrite dispatch_onLiveSeries. simpl.
  destruct (mounted w); reflexivity.
Qed.

(** ** Empty answers *)

(** C6.  In an armed session a tick whose answer is empty changes nothing:
    after the request went out and came back with no rows the whole page,
    pending requests included, is as it was before the tick, so cursor,
    accumulated sequence and last-update text are unchanged; the
    response handler calls no state setter, so no re-render is
    triggered.  The same holds for the empty answer of any pending
    request. *)
Theorem empty_response_changes_nothing (w : World) (now : string) :
  armed w = true ->
  (exists w1, step w Tick = Some w1
     /\ step w1 (Resolve (length (inflight w)) [] now) = Some w)
  /\ rerenders (onLiveSeries [] now) = false
  /\ (forall k r, nth_error (inflight w) k = Some r ->
        exists w', step w (Resolve k [] now) = Some w'
          /\ comp w' = comp w /\ timer w' = timer w)
  /\ (forall e w', step w e = Some w' ->
        lastUpdate (comp w') <> lastUpdate (comp w) ->
        exists k p tl now', e = Resolve k (p :: tl) now').
Proof.
  intros Harmed. split; [| split; [| split]];
    [| | | intros e w'; apply lastUpdate_changes_only_on_rows].
  - unfold armed in Harmed. unfold step, next_request.
    destruct (timer w) as [t |] eqn:Ht; [| discriminate].
    eexists. split; [reflexivity |].
    cbn [inflight with_inflight]. rewrite nth_error_snoc, remove_nth_snoc.
    rewrite dispatch_onLiveSeries. destruct w as [c m tp tm nx fl].
    simpl in *. subst tm. destruct m; reflexivity.
  - reflexivity.
  - intros k r Hk. unfold step. rewrite Hk. eexists. split; [reflexivity |].
    rewrite dispatch_onLiveSeries. simpl. destruct (mounted w); split; reflexivity.
Qed.

Lemma empty_response_changes_nothing_witness :
  let w := Scenario.world_after Scenario.started in
  armed w = true
  /\ exists w1, step w Tick = Some w1
       /\ length (inflight w1) = 1%nat
       /\ step w1 (Resolve 0 [] "10:00:02") = Some w.
Proof.
  intro w.
  assert (Ha : armed w = true) by reflexivity.
  destruct (empty_response_changes_nothing w "10:00:02" Ha)
    as ((w1 & H1 & H2) & _).
  split; [exact Ha |]. exists w1. split; [exact H1 |]. split; [| exact H2].
  assert (E : Some w1 = step w Tick) by (symmetry; exact H1).
  vm_compute in E. injection E as ->. reflexivity.
Defined.

(** ** Appending *)

(** C7.  For two batches [s1] and [s2] in which every index of [s2]
    exceeds every index of [s1], appending [s1] and then [s2] leaves the
    accumulated sequence extended by [s1 ++ s2], in that order; on a
    store that was just reset it is exactly [s1 ++ s2]. *)
Theorem append_append_concat (c : Comp) (s1 s2 : list Point) (n1 n2 : string) :
  (forall p q, In p s1 -> In q s2 -> idx p < idx q) ->
  data (append (append c s1 n1) s2 n2) = data c ++ s1 ++ s2
  /\ (data c = [] -> data (append (append c s1 n1) s2 n2) = s1 ++ s2).
Proof.
  intros _. rewrite !append_data, <- app_assoc. split; [reflexivity |].
  intros ->. reflexivity.
Qed.

Lemma append_append_concat_witness :
  let s1 := [Scenario.row 1; Scenario.row 2] in
  let s2 := [Scenario.row 3; Scenario.row 5] in
  data (append (append initial s1 "10:00:02") s2 "10:00:04") = s1 ++ s2.
Proof.
  intros s1 s2.
  refine (proj2 (append_append_concat initial s1 s2 "10:00:02" "10:00:04" _) eq_refl).
  intros p q Hp Hq. simpl in Hp, Hq.
  destruct Hp as [<- | [<- | []]]; destruct Hq as [<- | [<- | []]]; reflexivity.
Defined.

(** Nothing is dropped or merged even when the precondition fails. *)
Example append_keeps_duplicates :
  map idx (data (append (append initial [Scenario.row 1; Scenario.row 2] "a")
                   [Scenario.row 2; Scenario.row 1] "b"))
  = [1; 2; 2; 1].
Proof. reflexivity. Qed.

(** ** Stop, Start and the selectors *)

(** C9.  Stop only disarms the poller: whenever the Stop action runs, the
    accumulated series, the cursor and the last-update text are what they
    were, live mode is off and the interval is gone; and no event other
    than Start Live ever shortens the accumulated series, so the data
    stays on display until Start Live empties it. *)
Theorem stop_keeps_store :
  (forall w w', step w ClickStop = Some w' ->
     data (comp w') = data (comp w)
     /\ lastIdxRef (comp w') = lastIdxRef (comp w)
     /\ lastUpdate (comp w') = lastUpdate (comp w)
     /\ live (comp w') = false
     /\ armed w' = false)
  /\ (forall w e w', step w e = Some w' -> e <> ClickStart ->
        exists more, data (comp w') = data (comp w) ++ more)
  /\ (forall w w', step w ClickStart = Some w' -> data (comp w') = []).
Proof.
  split; [| split].
  - intros w w' H. step_inv H. subst w'.
    apply andb_prop in Hguard as [Hm Hl]. cbn [render v_stop_disabled] in Hl.
    apply negb_true_iff, negb_false_iff in Hl.
    unfold armed, dispatch, polling_effect, deps_eqb. rewrite Hm. simpl.
    rewrite Hl. simpl. repeat split.
  - exact step_data_grows.
  - intros w w' H. now destruct (start_resets w w' H) as (_ & Hd & _).
Qed.

Lemma stop_keeps_store_witness :
  let w := Scenario.world_after
             (Scenario.started
              ++ [Tick; Resolve 0 [Scenario.row 1; Scenario.row 2] "10:00:02"]) in
  exists w', step w ClickStop = Some w'
    /\ map idx (data (comp w')) = [1; 2]
    /\ lastIdxRef (comp w') = 2
    /\ live (comp w') = false.
Proof.
  intro w. eexists. split; [reflexivity |].
  match goal with
  | |- context [comp ?w'] =>
      destruct (proj1 stop_keeps_store w w' eq_refl) as (Hd & Hc & _ & Hl & _)
  end.
  rewrite Hd, Hc, Hl. repeat split.
Defined.

(** C4 (as the code has it).  Start Live empties the accumulated series
    and sets the cursor to zero; choosing another test or another system
    leaves both exactly as they were. *)
Theorem reset_on_start_only (w w' : World) :
  (step w ClickStart = Some w' ->
     data (comp w') = [] /\ lastIdxRef (comp w') = 0 /\ live (comp w') = true)
  /\ (forall v, step w (SelectTest v) = Some w' ->
        data (comp w') = data (comp w)
        /\ lastIdxRef (comp w') = lastIdxRef (comp w)
        /\ testId (comp w') = Some v)
  /\ (forall s, step w (SelectSystem s) = Some w' ->
        data (comp w') = data (comp w)
        /\ lastIdxRef (comp w') = lastIdxRef (comp w)
        /\ system (comp w') = s).
Proof.
  split; [| split].
  - intros H. destruct (start_resets w w' H) as (_ & Hd & Hc & Hl). auto.
  - intros v H. step_inv H. subst w'.
    apply andb_prop in Hguard as [Hg _]. apply andb_prop in Hg as [Hm _].
    rewrite comp_dispatch, Hm. repeat split.
  - intros s H. step_inv H. subst w'.
    apply andb_prop in Hguard as [Hm _]. rewrite comp_dispatch, Hm. repeat split.
Qed.

Lemma reset_on_start_only_witness :
  let w := Scenario.world_after Scenario.reselect_trace in
  exists w', step w ClickStart = Some w'
    /\ map idx (data (comp w)) = [1; 2]
    /\ data (comp w') = [] /\ lastIdxRef (comp w') = 0.
Proof.
  intro w. eexists. split; [reflexivity |]. split; [reflexivity |].
  match goal with
  | |- context [comp ?w'] =>
      destruct (proj1 (reset_on_start_only w w') eq_refl) as (Hd & Hc & _)
  end.
  split; assumption.
Defined.

(** C4 as written fails: with rows 1 and 2 on display and live mode
    stopped, selecting test 2 leaves both rows and the cursor at 2. *)
Lemma selection_change_keeps_store : ~ Claimed.selection_resets.
Proof.
  intros (_ & Hsel & _).
  pose (tr := [TestsLoaded [Scenario.testA; Scenario.testB]; ClickStart; Tick;
               Resolve 0 [Scenario.row 1; Scenario.row 2] "10:00:02"%string;
               ClickStop]).
  destruct (Hsel 2 tr (Scenario.world_after tr)
              (Scenario.world_after Scenario.reselect_trace)
              eq_refl eq_refl) as [Hd _].
  discriminate Hd.
Qed.

(** ** Reachable page states *)

Lemma Inv_init : Inv init.
Proof.
  constructor; simpl; try discriminate; auto.
Qed.

Lemma Forall_remove_nth {A} (P : A -> Prop) k l :
  Forall P l -> Forall P (remove_nth k l).
Proof.
  unfold remove_nth. revert l.
  induction k as [| k IH]; intros [| a l] H; simpl; auto.
  - now inversion H.
  - inversion H; subst. constructor; auto.
Qed.

Lemma Forall_fresh_S nx (l : list Request) :
  Forall (fun r => (r_timer r < nx)%nat) l ->
  Forall (fun r => (r_timer r < S nx)%nat) l.
Proof. apply Forall_impl. intros; lia. Qed.

(** A handler that leaves [live], [testId] and [system] alone keeps the
    interval and the invariant. *)
Lemma Inv_frame w c' fl :
  Inv w ->
  live c' = live (comp w) -> testId c' = testId (comp w) ->
  system c' = system (comp w) -> tests c' = tests (comp w) ->
  Forall (fun r => (r_timer r < nextTimer w)%nat) fl ->
  Inv (mkWorld c' (mounted w) (testsPending w) (timer w) (nextTimer w) fl).
Proof.
  intros [H1 H2 H3 H4 H5] Hl Ht Hs Hts Hfl.
  constructor; cbn [comp mounted testsPending timer nextTimer inflight armed];
    rewrite ?Hl, ?Ht, ?Hs, ?Hts; auto.
Qed.

Lemma step_Inv w e w' : Inv w -> step w e = Some w' -> Inv w'.
Proof.
  intros HI H. destruct e.
  - (* TestsLoaded *)
    step_inv H. subst w'. destruct (inv_pending w HI Hguard) as (Hl & Ht & _).
    assert (Htm : timer w = None).
    { destruct (timer w) as [t |] eqn:E; [| reflexivity].
      destruct (inv_timer w HI t E) as (_ & Hl' & _). congruence. }
    destruct w as [c m tp tm nx fl]. destruct c as [ts ti sy lv da lu li].
    simpl in *. subst. destruct HI as [_ _ _ _ H5]. simpl in H5.
    unfold dispatch, polling_effect, deps_eqb.
    destruct m, res as [| t0 res]; simpl; rewrite ?System_eqb_refl; simpl;
      constructor; simpl; try discriminate; auto.
  - (* TestsFailed *)
    step_inv H. subst w'. destruct HI as [H1 H2 H3 H4 H5].
    constructor; simpl; auto; discriminate.
  - (* SelectTest *)
    step_inv H. subst w'.
    apply andb_prop in Hguard as [Hg Hopt]. apply andb_prop in Hg as [Hm Hl].
    cbn [render v_test_disabled v_test_options] in Hl, Hopt.
    apply negb_true_iff in Hl.
    assert (Htp : testsPending w = false).
    { destruct (testsPending w) eqn:E; [| reflexivity].
      destruct (inv_pending w HI E) as (_ & _ & Hts).
      rewrite Hts in Hopt. discriminate. }
    assert (Htm : timer w = None).
    { destruct (timer w) as [t |] eqn:E; [| reflexivity].
      destruct (inv_timer w HI t E) as (_ & Hl' & _). congruence. }
    destruct HI as [_ _ _ _ H5].
    destruct w as [c m tp tm nx fl]. destruct c as [ts ti sy lv da lu li].
    simpl in *. subst.
    unfold dispatch, polling_effect, deps_eqb. simpl.
    rewrite System_eqb_refl.
    destruct (testId_eqb ti (Some v)); simpl;
      constructor; simpl; try discriminate; auto.
  - (* SelectSystem *)
    step_inv H. subst w'. apply andb_prop in Hguard as [Hm Hl].
    cbn [render v_system_disabled] in Hl. apply negb_true_iff in Hl.
    assert (Htm : timer w = None).
    { destruct (timer w) as [t |] eqn:E; [| reflexivity].
      destruct (inv_timer w HI t E) as (_ & Hl' & _). congruence. }
    destruct HI as [_ H2 _ _ H5].
    destruct w as [c m tp tm nx fl]. destruct c as [ts ti sy lv da lu li].
    simpl in *. subst.
    unfold dispatch, polling_effect, deps_eqb. simpl.
    rewrite testId_eqb_refl.
    destruct (System_eqb sy s); simpl;
      constructor; simpl; try discriminate; auto.
  - (* ClickStart *)
    step_inv H. subst w'. apply andb_prop in Hguard as [Hm Hd].
    cbn [render v_start_disabled] in Hd.
    apply negb_true_iff, orb_false_iff in Hd as [Hf Hl].
    assert (Htp : testsPending w = false).
    { destruct (testsPending w) eqn:E; [| reflexivity].
      destruct (inv_pending w HI E) as (_ & Ht & _).
      rewrite Ht in Hf. discriminate. }
    destruct HI as [_ _ _ _ H5].
    destruct w as [c m tp tm nx fl]. destruct c as [ts ti sy lv da lu li].
    simpl in *. subst.
    unfold dispatch, polling_effect, deps_eqb. simpl.
    destruct ti as [z |]; [| discriminate].
    constructor; simpl; try discriminate; auto.
    + intros t [= <-]. simpl. repeat split; lia.
    + now apply Forall_fresh_S.
  - (* ClickStop *)
    step_inv H. subst w'. apply andb_prop in Hguard as [Hm Hl].
    cbn [render v_stop_disabled] in Hl. apply negb_true_iff, negb_false_iff in Hl.
    destruct HI as [_ H2 _ _ H5].
    destruct w as [c m tp tm nx fl]. destruct c as [ts ti sy lv da lu li].
    simpl in *. subst.
    unfold dispatch, polling_effect, deps_eqb. simpl.
    constructor; simpl; try discriminate; auto.
    intros E. destruct (H2 E) as (? & _). discriminate.
  - (* Tick *)
    step_inv H. subst w'. unfold next_request in Hsome.
    destruct (timer w) as [t |] eqn:Ht; [| discriminate].
    injection Hsome as <-.
    destruct (inv_timer w HI t Ht) as (_ & _ & _ & _ & Hlt).
    destruct w as [c m tp tm nx fl]. simpl in *.
    apply (Inv_frame (mkWorld c m tp tm nx fl)); auto.
    apply Forall_app. split; [exact (inv_fresh _ HI) |].
    constructor; [exact Hlt | constructor].
  - (* Resolve *)
    step_inv H. subst w'. rewrite dispatch_onLiveSeries.
    cbn [comp mounted testsPending timer nextTimer inflight with_inflight].
    destruct (commit_onLiveSeries_frame (mounted w) (comp w) rows now)
      as (Hts & Ht & Hs & Hl).
    apply Inv_frame; auto.
    apply Forall_remove_nth. exact (inv_fresh _ HI).
  - (* Reject *)
    step_inv H. subst w'.
    destruct w as [c m tp tm nx fl]. simpl in *.
    apply (Inv_frame (mkWorld c m tp tm nx fl)); auto.
    apply Forall_remove_nth. exact (inv_fresh _ HI).
  - (* Unmount *)
    step_inv H. subst w'. destruct HI as [H1 H2 H3 H4 H5].
    constructor; simpl; auto; discriminate.
Qed.

Lemma run_Inv tr : forall w w', Inv w -> run w tr = Some w' -> Inv w'.
Proof.
  induction tr as [| e tr IH]; simpl; intros w w' HI H.
  - now injection H as <-.
  - destruct (step w e) as [w1 |] eqn:E; [| discriminate].
    eapply IH; [| exact H]. eapply step_Inv; eauto.
Qed.

Lemma reachable_Inv w : reachable w -> Inv w.
Proof. intros [tr H]. exact (run_Inv tr init w Inv_init H). Qed.

(** ** The Start Live guard *)

Lemma start_disabled_falsy c :
  testId c = None \/ testId c = Some 0 -> v_start_disabled (render c) = true.
Proof. intros [H | H]; simpl; rewrite H; reflexivity. Qed.

Lemma select_listed_test w v :
  mounted w = true -> live (comp w) = false ->
  In v (map t_id (tests (comp w))) ->
  exists w', step w (SelectTest v) = Some w' /\ testId (comp w') = Some v.
Proof.
  intros Hm Hl Hin. unfold step. cbn [render v_test_disabled v_test_options].
  rewrite Hm, Hl. simpl.
  assert (E : existsb (fun t => t_id t =? v) (tests (comp w)) = true).
  { apply existsb_exists. apply in_map_iff in Hin as (t & <- & Ht).
    exists t. split; [exact Ht | apply Z.eqb_refl]. }
  rewrite E. eexists. split; [reflexivity |].
  rewrite comp_dispatch, Hm. reflexivity.
Qed.

(** C10.  The Start Live button is disabled whenever [testId] is null or
    0.  In every page state a run can reach in which the selected test id
    is 0, pressing Start Live does nothing, live mode is off and no
    interval is running; yet a listed test whose id is 0 can be selected
    like any other. *)
Theorem start_disabled_for_test_zero :
  (forall c, testId c = None \/ testId c = Some 0 ->
     v_start_disabled (render c) = true)
  /\ (forall tr w, run init tr = Some w -> testId (comp w) = Some 0 ->
        step w ClickStart = None /\ live (comp w) = false /\ armed w = false)
  /\ (forall w, mounted w = true -> live (comp w) = false ->
        In 0 (map t_id (tests (comp w))) ->
        exists w', step w (SelectTest 0) = Some w' /\ testId (comp w') = Some 0).
Proof.
  split; [exact start_disabled_falsy | split].
  - intros tr w Hrun Hz.
    pose proof (reachable_Inv w (ex_intro _ tr Hrun)) as HI.
    assert (Hl : live (comp w) = false).
    { destruct (live (comp w)) eqn:E; [| reflexivity].
      pose proof (inv_live_truthy w HI E) as Hf. rewrite Hz in Hf. discriminate. }
    repeat split.
    + unfold step. cbn [render v_start_disabled]. rewrite Hz. simpl.
      now rewrite andb_false_r.
    + exact Hl.
    + unfold armed. destruct (timer w) as [t |] eqn:E; [| reflexivity].
      destruct (inv_timer w HI t E) as (_ & Hl' & _). congruence.
  - intros w. apply select_listed_test.
Qed.

Lemma start_disabled_for_test_zero_witness :
  let w := Scenario.world_after Scenario.zero_trace in
  run init Scenario.zero_trace = Some w
  /\ testId (comp w) = Some 0
  /\ step w ClickStart = None.
Proof.
  intro w.
  assert (Hrun : run init Scenario.zero_trace = Some w) by reflexivity.
  assert (Hz : testId (comp w) = Some 0) by reflexivity.
  destruct start_disabled_for_test_zero as (_ & H & _).
  destruct (H Scenario.zero_trace w Hrun Hz) as (Hs & _).
  split; [exact Hrun | split; [exact Hz | exact Hs]].
Defined.

(** A test with id 0 is picked automatically when it is listed first. *)
Example first_test_zero_cannot_start :
  run init [TestsLoaded [Scenario.test0; Scenario.testA]; ClickStart] = None.
Proof. reflexivity. Qed.

(** ** Overlapping fetches *)

Lemma tick_when_armed w :
  armed w = true ->
  exists r, step w Tick = Some (with_inflight w (inflight w ++ [r]))
    /\ next_request w = Some r
    /\ from_idx r = lastIdxRef (comp w) /\ limit r = LIMIT.
Proof.
  unfold armed, step, next_request. destruct (timer w) as [t |]; [| discriminate].
  intros _. eexists. repeat split.
Qed.

Lemma step_count w e w' :
  step w e = Some w' ->
  (length (inflight w') + (if is_settle e then 1 else 0)
   = length (inflight w) + (if is_tick e then 1 else 0))%nat.
Proof.
  intros H. destruct e; step_inv H; subst w';
    cbn [is_settle is_tick inflight dispatch with_inflight with_testsPending unmount];
    try lia.
  - rewrite length_app. simpl. lia.
  - pose proof (length_remove_nth _ _ _ Hguard). lia.
  - pose proof (length_remove_nth _ _ _ Hguard). lia.
Qed.

Lemma run_count tr : forall w w',
  run w tr = Some w' ->
  (length (inflight w') + settled tr = length (inflight w) + issued tr)%nat.
Proof.
  unfold settled, issued.
  induction tr as [| e tr IH]; simpl; intros w w' H.
  - injection H as <-. lia.
  - destruct (step w e) as [w1 |] eqn:E; [| discriminate].
    pose proof (step_count _ _ _ E). pose proof (IH _ _ H).
    destruct (is_settle e), (is_tick e); simpl; lia.
Qed.

(** C2 (as the code has it).  Whenever the interval is running, a tick
    sends one more request carrying the cursor of that moment and the
    fixed limit, whatever is still pending: no tick is skipped or
    deferred.  Along every run the number of pending requests is the
    number of ticks so far minus the number of answers and failures so
    far. *)
Theorem tick_always_issues :
  (forall w, armed w = true ->
     exists r, step w Tick = Some (with_inflight w (inflight w ++ [r]))
       /\ from_idx r = lastIdxRef (comp w) /\ limit r = LIMIT)
  /\ (forall tr w, run init tr = Some w ->
        (length (inflight w) + settled tr = issued tr)%nat).
Proof.
  split.
  - intros w Ha. destruct (tick_when_armed w Ha) as (r & Hs & _ & Hf & Hl).
    exists r. auto.
  - intros tr w H. exact (run_count tr init w H).
Qed.

Lemma tick_always_issues_witness :
  let w := Scenario.world_after Scenario.overlap_trace in
  armed w = true /\ length (inflight w) = 2%nat /\ step w Tick <> None.
Proof.
  intro w.
  assert (Ha : armed w = true) by reflexivity.
  destruct (proj1 tick_always_issues w Ha) as (r & Hs & _).
  pose proof (proj2 tick_always_issues Scenario.overlap_trace w eq_refl) as Hn.
  split; [exact Ha | split; [exact Hn | rewrite Hs; discriminate]].
Defined.

(** C2 as written fails: two periods elapse before the first answer and
    two requests with [from_idx = 0] are pending together. *)
Lemma two_fetches_in_flight :
  ~ Claimed.one_in_flight /\ ~ Claimed.no_shared_cursor.
Proof.
  split.
  - intros H.
    specialize (H Scenario.overlap_trace
                  (Scenario.world_after Scenario.overlap_trace) eq_refl).
    simpl in H. lia.
  - intros H.
    refine (H Scenario.overlap_trace
              (Scenario.world_after Scenario.overlap_trace)
              0%nat 1%nat _ _ eq_refl eq_refl eq_refl _ eq_refl).
    discriminate.
Qed.

(** ** Leaving the armed state *)

Lemma disarm_only_by_stop_or_unmount w e w' :
  Inv w -> armed w = true -> step w e = Some w' -> armed w' = false ->
  e = ClickStop \/ e = Unmount.
Proof.
  intros HI Ha H Ha'. unfold armed in Ha.
  destruct (timer w) as [t |] eqn:Ht; [clear Ha | discriminate].
  destruct (inv_timer w HI t Ht) as (Hm & Hl & _).
  destruct e; auto; exfalso; step_inv H; subst w'.
  - destruct (inv_pending w HI Hguard) as (Hl' & _). congruence.
  - unfold armed in Ha'. simpl in Ha'. rewrite Ht in Ha'. discriminate.
  - cbn [render v_test_disabled] in Hguard. rewrite Hl, Hm in Hguard. discriminate.
  - cbn [render v_system_disabled] in Hguard. rewrite Hl, Hm in Hguard. discriminate.
  - cbn [render v_start_disabled] in Hguard. rewrite Hl, Hm, orb_true_r in Hguard.
    discriminate.
  - unfold armed in Ha'. simpl in Ha'. rewrite Ht in Ha'. discriminate.
  - rewrite dispatch_onLiveSeries in Ha'. unfold armed in Ha'. simpl in Ha'.
    rewrite Ht in Ha'. discriminate.
  - unfold armed in Ha'. simpl in Ha'. rewrite Ht in Ha'. discriminate.
Qed.

Lemma late_response w k r p tl now :
  nth_error (inflight w) k = Some r ->
  exists w', step w (Resolve k (p :: tl) now) = Some w'
    /\ lastIdxRef (comp w') = idx (last tl p)
    /\ (mounted w = true ->
        data (comp w') = data (comp w) ++ p :: tl
        /\ lastUpdate (comp w') = now).
Proof.
  intros Hk. unfold step. rewrite Hk. eexists. split; [reflexivity |].
  rewrite dispatch_onLiveSeries. cbn [comp mounted with_inflight].
  split.
  - destruct (mounted w); reflexivity.
  - intros ->. split; reflexivity.
Qed.

(** C1 (as the code has it).  From a page state that a run can reach, the
    poller leaves the armed state only through Stop or through the view
    unmounting.  When it does, the interval is cleared, so no further
    tick fires for the old session, but what was already in flight stays
    pending: such a request is now stale, and when it is answered with
    rows the handler still runs, overwriting the cursor with the last
    row's index and, if the view is still mounted, appending the rows and
    refreshing the last-update text. *)
Theorem leaving_armed_clears_interval_only (tr : list Event) (w w' : World) (e : Event) :
  run init tr = Some w ->
  armed w = true -> step w e = Some w' -> armed w' = false ->
  (e = ClickStop \/ e = Unmount)
  /\ step w' Tick = None
  /\ inflight w' = inflight w
  /\ (forall k r p tl now,
        nth_error (inflight w') k = Some r ->
        stale w' r = true
        /\ exists w'', step w' (Resolve k (p :: tl) now) = Some w''
             /\ lastIdxRef (comp w'') = idx (last tl p)
             /\ (mounted w' = true ->
                 data (comp w'') = data (comp w') ++ p :: tl
                 /\ lastUpdate (comp w'') = now)).
Proof.
  intros Hrun Ha H Ha'.
  pose proof (reachable_Inv w (ex_intro _ tr Hrun)) as HI.
  pose proof (disarm_only_by_stop_or_unmount w e w' HI Ha H Ha') as He.
  assert (Htm : timer w' = None).
  { unfold armed in Ha'. destruct (timer w'); [discriminate | reflexivity]. }
  split; [exact He |]. split; [| split].
  - unfold step, next_request. now rewrite Htm.
  - destruct He as [-> | ->]; step_inv H; subst w'; reflexivity.
  - intros k r p tl now Hk. split.
    + unfold stale. now rewrite Htm.
    + now apply late_response with (r := r).
Qed.

Lemma leaving_armed_clears_interval_only_witness :
  let tr := Scenario.started ++ [Tick] in
  let w := Scenario.world_after tr in
  exists w' w'',
    step w ClickStop = Some w'
    /\ step w' Tick = None
    /\ step w' (Resolve 0 [Scenario.row 1; Scenario.row 2] "10:00:03") = Some w''
    /\ lastIdxRef (comp w'') = 2.
Proof.
  intros tr w.
  pose (w' := Scenario.world_after (tr ++ [ClickStop])).
  assert (Hs : step w ClickStop = Some w') by reflexivity.
  destruct (leaving_armed_clears_interval_only tr w w' ClickStop
              eq_refl eq_refl Hs eq_refl) as (_ & Ht & _ & Hlate).
  destruct (Hlate 0%nat (mkRequest 1 1 Sys1 0 500)
              (Scenario.row 1) [Scenario.row 2] "10:00:03"%string eq_refl)
    as (_ & w'' & Hr & Hc & _).
  exists w', w''. repeat split; assumption.
Defined.

(** C1 as written fails: a fetch for test 1 is pending when the user
    stops, selects test 2 and starts again; its answer then lands in the
    new session's store and moves the new session's cursor. *)
Lemma stale_response_mutates_store : ~ Claimed.stale_discarded.
Proof.
  intros H.
  pose (w := Scenario.world_after Scenario.stale_trace).
  destruct (H Scenario.stale_trace w 0%nat (mkRequest 1 1 Sys1 0 500)
              [Scenario.row 1; Scenario.row 2] "10:00:03"%string
              (Scenario.world_after
                 (Scenario.stale_trace
                  ++ [Resolve 0 [Scenario.row 1; Scenario.row 2] "10:00:03"]))
              eq_refl eq_refl eq_refl eq_refl) as [Hd _].
  discriminate Hd.
Qed.

(** The same run, spelled out: the new session is on test 2, the answer
    was asked for test 1, and rows 1 and 2 end up in the store. *)
Example stale_response_run :
  let w := Scenario.world_after Scenario.stale_trace in
  let w' := Scenario.world_after
              (Scenario.stale_trace
               ++ [Resolve 0 [Scenario.row 1; Scenario.row 2] "10:00:03"]) in
  testId (comp w) = Some 2
  /\ map test_id (inflight w) = [1]
  /\ data (comp w) = []
  /\ map idx (data (comp w')) = [1; 2]
  /\ lastIdxRef (comp w') = 2.
Proof. repeat split. Qed.

(** ** The cursor *)

Lemma last_cons {A} (tl : list A) : forall q p, last (q :: tl) p = last tl q.
Proof.
  induction tl as [| a tl IH]; intros q p; [reflexivity |].
  change (last (q :: a :: tl) p) with (last (a :: tl) p).
  now rewrite !IH.
Qed.

Lemma ascending_last_max tl : forall p,
  ascending (map idx (p :: tl)) = true ->
  Forall (fun q => idx q <= idx (last tl p)) (p :: tl).
Proof.
  induction tl as [| q tl IH]; intros p H.
  - constructor; [simpl; lia | constructor].
  - change (ascending (idx p :: idx q :: map idx tl) = true) in H.
    cbn [ascending] in H. apply andb_prop in H as [Hpq Hasc].
    apply Z.ltb_lt in Hpq.
    specialize (IH q Hasc). rewrite last_cons.
    constructor; [| exact IH].
    inversion IH; subst. lia.
Qed.

Lemma last_in tl : forall p : Point, In (last tl p) (p :: tl).
Proof.
  induction tl as [| q tl IH]; intros p; [now left |].
  right. rewrite last_cons. apply IH.
Qed.

(** Nothing in the store lies above the cursor. *)
Lemma append_bounded c rows now :
  Forall (fun q => idx q <= lastIdxRef c) (data c) ->
  rows <> [] ->
  forallb (fun p => lastIdxRef c <? idx p) rows = true ->
  ascending (map idx rows) = true ->
  let c' := append c rows now in
  In (lastIdxRef c') (map idx (data c'))
  /\ Forall (fun q => idx q <= lastIdxRef c') (data c').
Proof.
  intros Hb Hne Habove Hasc. destruct rows as [| p tl]; [congruence |].
  cbv zeta. rewrite append_data, append_cursor.
  pose proof (ascending_last_max tl p Hasc) as Hmax.
  pose proof (last_in tl p) as Hin.
  split.
  - rewrite map_app. apply in_or_app. right. now apply in_map.
  - apply Forall_app. split; [| exact Hmax].
    rewrite forallb_forall in Habove.
    specialize (Habove _ Hin). apply Z.ltb_lt in Habove.
    eapply Forall_impl; [| exact Hb]. simpl. intros; lia.
Qed.

Lemma poll_eq w r rows now :
  mounted w = true -> next_request w = Some r ->
  poll w rows now
  = Some (mkWorld (append (comp w) rows now) true (testsPending w)
            (timer w) (nextTimer w) (inflight w)).
Proof.
  intros Hm Hr. unfold poll, step at 1. rewrite Hr.
  unfold step. cbn [inflight with_inflight].
  rewrite nth_error_snoc, remove_nth_snoc, dispatch_onLiveSeries.
  cbn [comp mounted testsPending timer nextTimer inflight with_inflight].
  now rewrite Hm.
Qed.

Lemma honest_prefix bs1 bs2 : forall w,
  honest w (bs1 ++ bs2) = true -> honest w bs1 = true.
Proof.
  induction bs1 as [| [rows now] bs1 IH]; intros w H; [reflexivity |].
  simpl in *. destruct (next_request w); [| discriminate].
  destruct (poll w rows now) as [w' |]; [| discriminate].
  apply andb_prop in H as [H1 H2]. rewrite H1. simpl. now apply IH.
Qed.

Lemma polls_honest bs : forall w,
  mounted w = true ->
  Forall (fun q => idx q <= lastIdxRef (comp w)) (data (comp w)) ->
  honest w bs = true ->
  exists w', polls w bs = Some w'
    /\ mounted w' = true /\ timer w' = timer w
    /\ data (comp w') = data (comp w) ++ concat (map fst bs)
    /\ Forall (fun q => idx q <= lastIdxRef (comp w')) (data (comp w'))
    /\ (bs <> [] -> In (lastIdxRef (comp w')) (map idx (data (comp w')))).
Proof.
  induction bs as [| [rows now] bs IH]; intros w Hm Hb Hh.
  - exists w. simpl. rewrite app_nil_r. repeat split; auto. congruence.
  - simpl in Hh. destruct (next_request w) as [r |] eqn:Hr; [| discriminate].
    assert (Hfrom : from_idx r = lastIdxRef (comp w)).
    { unfold next_request in Hr. destruct (timer w); [| discriminate].
      now injection Hr as <-. }
    rewrite (poll_eq w r rows now Hm Hr) in Hh. simpl polls.
    rewrite (poll_eq w r rows now Hm Hr).
    apply andb_prop in Hh as [Hh Hrest]. apply andb_prop in Hh as [Hne Hok].
    unfold live_series_ok in Hok.
    apply andb_prop in Hok as [Hok _]. apply andb_prop in Hok as [Habove Hasc].
    rewrite Hfrom in Habove.
    assert (Hrows : rows <> []) by (destruct rows; [discriminate | congruence]).
    destruct (append_bounded (comp w) rows now Hb Hrows Habove Hasc) as [Hin Hb'].
    apply IH in Hrest as (w' & Hp & Hm' & Ht' & Hd' & Hb'' & Hin');
      [| reflexivity | exact Hb'].
    cbn [comp timer] in Hd', Ht'. rewrite append_data in Hd'.
    exists w'. repeat split; auto.
    + rewrite Hd'. simpl. now rewrite app_assoc.
    + intros _. destruct bs as [| b bs]; [| apply Hin'; discriminate].
      simpl in Hp. injection Hp as <-. exact Hin.
Qed.

(** C5 (as the code has it).  Take a session begun by Start Live and
    polled without overlap, each tick being answered before the next
    one, every answer non-empty and within the backend's contract for the
    request it answers.  After each answer the accumulated sequence is
    the concatenation of the batches so far, the cursor is the largest
    index in it, and the next tick asks from exactly that cursor, so an
    answer within the contract brings only indices above everything
    already stored. *)
Theorem cursor_is_max_without_overlap
    (w0 w : World) (bs1 bs2 : list (list Point * string)) :
  step w0 ClickStart = Some w ->
  honest w (bs1 ++ bs2) = true ->
  bs1 <> [] ->
  exists w1 r,
    polls w bs1 = Some w1
    /\ data (comp w1) = concat (map fst bs1)
    /\ is_max_idx (lastIdxRef (comp w1)) (data (comp w1))
    /\ next_request w1 = Some r
    /\ from_idx r = lastIdxRef (comp w1)
    /\ (forall rows p q, live_series_ok r rows = true ->
          In p rows -> In q (data (comp w1)) -> idx q < idx p).
Proof.
  intros Hstart Hh Hne.
  destruct (start_resets w0 w Hstart) as (Hm & Hd & Hc & _).
  apply honest_prefix in Hh.
  assert (Hb : Forall (fun q => idx q <= lastIdxRef (comp w)) (data (comp w)))
    by (rewrite Hd; constructor).
  destruct (polls_honest bs1 w Hm Hb Hh) as (w1 & Hp & Hm1 & Ht1 & Hd1 & Hb1 & Hin1).
  assert (Hr : exists r, next_request w1 = Some r
                         /\ from_idx r = lastIdxRef (comp w1)).
  { unfold next_request. rewrite Ht1.
    destruct bs1 as [| [rows now] bs1]; [congruence |].
    simpl in Hh. unfold next_request in Hh.
    destruct (timer w) as [t |]; [| discriminate].
    eexists. split; reflexivity. }
  destruct Hr as (r & Hr & Hfrom).
  exists w1, r. rewrite Hd in Hd1. simpl in Hd1.
  repeat split; auto.
  intros rows p q Hok Hp' Hq.
  unfold live_series_ok in Hok.
  apply andb_prop in Hok as [Hok _]. apply andb_prop in Hok as [Habove _].
  rewrite forallb_forall in Habove. specialize (Habove _ Hp').
  apply Z.ltb_lt in Habove. rewrite Hfrom in Habove.
  rewrite Forall_forall in Hb1. specialize (Hb1 _ Hq). simpl in Hb1. lia.
Qed.

Lemma cursor_is_max_without_overlap_witness :
  let w0 := Scenario.world_after [TestsLoaded [Scenario.testA; Scenario.testB]] in
  let w := Scenario.world_after Scenario.started in
  exists w1,
    polls w Scenario.two_batches = Some w1
    /\ map idx (data (comp w1)) = [1; 2; 3; 5]
    /\ is_max_idx (lastIdxRef (comp w1)) (data (comp w1))
    /\ lastIdxRef (comp w1) = 5.
Proof.
  intros w0 w.
  assert (Hs : step w0 ClickStart = Some w) by reflexivity.
  assert (Hh : honest w (Scenario.two_batches ++ []) = true) by reflexivity.
  assert (Hne : Scenario.two_batches <> []) by discriminate.
  destruct (cursor_is_max_without_overlap w0 w Scenario.two_batches [] Hs Hh Hne)
    as (w1 & r & Hp & Hd & Hmax & _).
  exists w1. split; [exact Hp |]. split; [now rewrite Hd |]. split; [exact Hmax |].
  assert (E : Some w1 = polls w Scenario.two_batches) by (symmetry; exact Hp).
  vm_compute in E. injection E as ->. reflexivity.
Defined.

(** C5 as written fails: two overlapping fetches, each answered within
    the backend's contract, complete in the opposite order; the second
    answer to arrive sets the cursor to 2 while row 3 is in the store. *)
Lemma cursor_falls_behind : ~ Claimed.cursor_is_max.
Proof.
  intros H.
  pose (tr := Scenario.overlap_trace
              ++ [Resolve 1 [Scenario.row 1; Scenario.row 2; Scenario.row 3]
                    "10:00:02"%string]).
  assert (Hne : [Scenario.row 1; Scenario.row 2] <> []) by discriminate.
  destruct (H tr (Scenario.world_after tr) 0%nat
              [Scenario.row 1; Scenario.row 2] "10:00:03"%string
              (Scenario.world_after Scenario.crossed_trace)
              eq_refl eq_refl Hne eq_refl) as [_ Hall].
  simpl in Hall. inversion Hall as [| ? ? _ Hall1]. subst.
  inversion Hall1 as [| ? ? _ Hall2]. subst.
  inversion Hall2 as [| ? ? H3 _]. subst.
  simpl in H3. lia.
Qed.

Example crossed_run :
  let w := Scenario.world_after Scenario.crossed_trace in
  contract_run init Scenario.crossed_trace = true
  /\ map idx (data (comp w)) = [1; 2; 3; 1; 2]
  /\ lastIdxRef (comp w) = 2.
Proof. repeat split. Qed.

(** ** A failed fetch *)

Lemma tick_then_reject w :
  armed w = true ->
  exists w1, step w Tick = Some w1
    /\ step w1 (Reject (length (inflight w))) = Some w.
Proof.
  intros Ha. destruct (tick_when_armed w Ha) as (r & Hs & _).
  eexists. split; [exact Hs |].
  unfold step. cbn [inflight with_inflight].
  rewrite nth_error_snoc, remove_nth_snoc. destruct w; reflexivity.
Qed.

(** C8, on the code.  With live mode on, a tick whose request fails
    leaves the page exactly as it was before the tick: live mode is still
    on, store and cursor are untouched and the next tick goes out again,
    but nothing the page renders has changed, so the failure is not
    shown. *)
Theorem failed_fetch_not_surfaced :
  let w := Scenario.world_after Scenario.started in
  exists w1 w2,
    step w Tick = Some w1
    /\ step w1 (Reject 0) = Some w2
    /\ run init Scenario.failure_trace = Some w2
    /\ w2 = w
    /\ render (comp w2) = render (comp w)
    /\ live (comp w2) = true
    /\ step w2 Tick = Some w1.
Proof.
  intro w.
  destruct (tick_then_reject w eq_refl) as (w1 & H1 & H2).
  exists w1, w. repeat split; assumption.
Qed.

Lemma failure_never_surfaced : ~ Claimed.failure_surfaced.
Proof.
  intros H.
  pose (tr := Scenario.started ++ [Tick]).
  apply (H tr (Scenario.world_after tr) 0%nat
           (Scenario.world_after Scenario.started) eq_refl eq_refl).
  reflexivity.
Qed.

(** * Further properties of the live viewer *)

(** ** What a tick asks for *)

(** X1.  In every page state a run can reach, the request that the next
    tick would send is for the currently selected test and system, starts
    at the current cursor and asks for at most 500 rows; and it exists
    only while live mode is on. *)
Theorem tick_request_matches_selection (tr : list Event) (w : World) (r : Request) :
  run init tr = Some w ->
  next_request w = Some r ->
  testId (comp w) = Some (test_id r)
  /\ system (comp w) = r_system r
  /\ from_idx r = lastIdxRef (comp w)
  /\ limit r = 500
  /\ live (comp w) = true.
Proof.
  intros Hrun Hr.
  pose proof (reachable_Inv w (ex_intro _ tr Hrun)) as HI.
  unfold next_request in Hr. destruct (timer w) as [t |] eqn:Ht; [| discriminate].
  injection Hr as <-.
  destruct (inv_timer w HI t Ht) as (_ & Hl & Hti & Hs & _).
  repeat split; assumption.
Qed.

Lemma tick_request_matches_selection_witness :
  let tr := [TestsLoaded [Scenario.testA; Scenario.testB]; SelectSystem Sys3;
             SelectTest 2; ClickStart] in
  exists w r, run init tr = Some w /\ next_request w = Some r
    /\ testId (comp w) = Some (test_id r) /\ system (comp w) = r_system r.
Proof.
  intro tr.
  let x := eval vm_compute in (Scenario.world_after tr) in pose (w := x).
  pose (r := mkRequest 1 2 Sys3 0 500).
  assert (Hrun : run init tr = Some w) by (vm_compute; reflexivity).
  assert (Hr : next_request w = Some r) by (vm_compute; reflexivity).
  destruct (tick_request_matches_selection tr w r Hrun Hr) as (Ht & Hs & _).
  exists w, r. repeat split; assumption.
Defined.

(** X2.  In every reachable page state the polling interval is running
    exactly when the view is mounted and live mode is on: the LIVE banner
    and the timer never disagree. *)
Theorem armed_iff_mounted_and_live (tr : list Event) (w : World) :
  run init tr = Some w ->
  armed w = mounted w && live (comp w).
Proof.
  intros Hrun.
  pose proof (reachable_Inv w (ex_intro _ tr Hrun)) as HI.
  unfold armed. destruct (timer w) as [t |] eqn:Ht.
  - destruct (inv_timer w HI t Ht) as (Hm & Hl & _). now rewrite Hm, Hl.
  - destruct (mounted w) eqn:Hm; [| reflexivity].
    destruct (live (comp w)) eqn:Hl; [| reflexivity].
    pose proof (inv_armed w HI Hm Hl) as Ha. unfold armed in Ha.
    rewrite Ht in Ha. discriminate.
Qed.

Lemma armed_iff_mounted_and_live_witness :
  let tr := Scenario.started ++ [Unmount] in
  exists u, run init tr = Some u
    /\ live (comp u) = true /\ mounted u = false /\ armed u = false.
Proof.
  intro tr.
  let x := eval vm_compute in (Scenario.world_after tr) in pose (u := x).
  assert (Hrun : run init tr = Some u) by (vm_compute; reflexivity).
  pose proof (armed_iff_mounted_and_live tr u Hrun) as Hu.
  exists u. split; [exact Hrun |]. split; [reflexivity |]. split; [reflexivity |].
  rewrite Hu. reflexivity.
Defined.



(** ** The test list and the selection *)

Lemma Listed_init : Listed init.
Proof. constructor; simpl; [discriminate | congruence]. Qed.

Lemma Listed_frame w w' :
  Listed w ->
  tests (comp w') = tests (comp w) -> testId (comp w') = testId (comp w) ->
  Listed w'.
Proof.
  intros [H1 H2] Hts Hti. constructor; rewrite Hts, Hti; assumption.
Qed.

Lemma step_Listed w e w' : Inv w -> Listed w -> step w e = Some w' -> Listed w'.
Proof.
  intros HI HL H. destruct e; step_inv H; subst w';
    try (apply (Listed_frame w); [exact HL | |];
         rewrite ?dispatch_onLiveSeries, ?comp_dispatch;
         cbn [comp mounted with_inflight with_testsPending unmount];
         (destruct (mounted w)); try (destruct rows); reflexivity).
  - (* TestsLoaded *)
    destruct (inv_pending w HI Hguard) as (_ & Hti & Hts).
    constructor; rewrite comp_dispatch; cbn [comp mounted with_testsPending];
      destruct (mounted w), res as [| t res]; unfold commit; simpl;
      rewrite ?Hti, ?Hts; try discriminate; try congruence.
    intros v [= <-]. now left.
  - (* SelectTest *)
    apply andb_prop in Hguard as [Hg Hopt]. apply andb_prop in Hg as [Hm _].
    cbn [render v_test_options] in Hopt.
    constructor; rewrite comp_dispatch, Hm; simpl; [| discriminate].
    intros x [= <-]. apply existsb_exists in Hopt as (t & Ht & He).
    apply Z.eqb_eq in He. subst v. now apply in_map.
Qed.

Lemma run_Inv_Listed tr : forall w w',
  Inv w -> Listed w -> run w tr = Some w' -> Inv w' /\ Listed w'.
Proof.
  induction tr as [| e tr IH]; simpl; intros w w' HI HL H.
  - injection H as <-. now split.
  - destruct (step w e) as [w1 |] eqn:E; [| discriminate].
    eapply IH; [| | exact H].
    + eapply step_Inv; eauto.
    + eapply step_Listed; eauto.
Qed.

Lemma empty_list_idle w :
  Inv w -> Listed w -> tests (comp w) = [] ->
  testId (comp w) = None /\ live (comp w) = false
  /\ armed w = false /\ step w ClickStart = None /\ step w Tick = None.
Proof.
  intros HI [H1 _] Hts.
  assert (Hti : testId (comp w) = None).
  { destruct (testId (comp w)) as [v |] eqn:E; [| reflexivity].
    specialize (H1 v eq_refl). rewrite Hts in H1. destruct H1. }
  assert (Hl : live (comp w) = false).
  { destruct (live (comp w)) eqn:E; [| reflexivity].
    pose proof (inv_live_truthy w HI E) as Hf. rewrite Hti in Hf. discriminate. }
  assert (Htm : timer w = None).
  { destruct (timer w) as [t |] eqn:E; [| reflexivity].
    destruct (inv_timer w HI t E) as (_ & Hl' & _). congruence. }
  repeat split; auto.
  - unfold armed. now rewrite Htm.
  - unfold step. cbn [render v_start_disabled]. rewrite Hti. simpl.
    now rewrite andb_false_r.
  - unfold step, next_request. now rewrite Htm.
Qed.

(** X4.  In every reachable page state the selected test is one of the
    listed tests, a non-empty list always has a selected entry, and with
    an empty list nothing is selected, live mode is off and Start Live
    is disabled. *)
Theorem selection_is_listed (tr : list Event) (w : World) :
  run init tr = Some w ->
  (forall v, testId (comp w) = Some v -> In v (map t_id (tests (comp w))))
  /\ (tests (comp w) <> [] -> testId (comp w) <> None)
  /\ (tests (comp w) = [] ->
      testId (comp w) = None /\ live (comp w) = false
      /\ step w ClickStart = None).
Proof.
  intros Hrun.
  destruct (run_Inv_Listed tr init w Inv_init Listed_init Hrun) as [HI HL].
  split; [exact (listed_selected w HL) | split; [exact (listed_nonempty w HL) |]].
  intros Hts.
  destruct (empty_list_idle w HI HL Hts) as (Hti & Hl & _ & Hs & _). auto.
Qed.

Lemma selection_is_listed_witness :
  let tr := [TestsLoaded [Scenario.testA; Scenario.testB]; SelectTest 2] in
  exists w, run init tr = Some w
    /\ testId (comp w) = Some 2 /\ In 2 (map t_id (tests (comp w))).
Proof.
  intro tr.
  let x := eval vm_compute in (Scenario.world_after tr) in pose (w := x).
  assert (Hrun : run init tr = Some w) by (vm_compute; reflexivity).
  destruct (selection_is_listed tr w Hrun) as (H1 & _).
  exists w. split; [exact Hrun |]. split; [reflexivity |].
  apply H1. reflexivity.
Defined.

(** The list is fetched once per mount. *)
Lemma step_tests_fixed w e w' :
  testsPending w = false -> step w e = Some w' ->
  tests (comp w') = tests (comp w) /\ testsPending w' = false.
Proof.
  intros Hp H. destruct e; step_inv H; subst w'; try congruence;
    rewrite ?dispatch_onLiveSeries;
    cbn [comp testsPending mounted dispatch with_inflight unmount];
    (split; [| exact Hp]);
    try reflexivity; unfold commit;
    destruct (mounted w); try destruct rows; reflexivity.
Qed.

(** X5.  The test list is fetched once per mount: once the [/tests]
    request has been answered or has failed, nothing that happens on the
    page changes the listed tests again. *)
Theorem tests_fixed_after_load (w : World) (tr : list Event) (w' : World) :
  testsPending w = false ->
  run w tr = Some w' ->
  tests (comp w') = tests (comp w) /\ testsPending w' = false.
Proof.
  revert w. induction tr as [| e tr IH]; simpl; intros w Hp H.
  - injection H as <-. now split.
  - destruct (step w e) as [w1 |] eqn:E; [| discriminate].
    destruct (step_tests_fixed w e w1 Hp E) as [Hts Hp1].
    destruct (IH w1 Hp1 H) as [Hts' Hp']. split; congruence.
Qed.

Lemma tests_fixed_after_load_witness :
  let w := Scenario.world_after [TestsLoaded [Scenario.testA]] in
  let tr := [ClickStart; Tick; Resolve 0 [Scenario.row 1] "10:00:02"%string;
             ClickStop; TestsLoaded [Scenario.testB]] in
  run w tr = None
  /\ exists w', run w (removelast tr) = Some w'
       /\ tests (comp w') = [Scenario.testA].
Proof.
  intros w tr. split; [vm_compute; reflexivity |].
  let x := eval vm_compute in (run w (removelast tr)) in
  match x with Some ?y => pose (w' := y) end.
  assert (Hrun : run w (removelast tr) = Some w') by (vm_compute; reflexivity).
  assert (Hp : testsPending w = false) by (vm_compute; reflexivity).
  destruct (tests_fixed_after_load w (removelast tr) w' Hp Hrun) as [Hts _].
  exists w'. split; [exact Hrun |]. rewrite Hts. vm_compute. reflexivity.
Defined.

Lemma idle_forever tr' : forall w w',
  Inv w -> Listed w -> testsPending w = false -> tests (comp w) = [] ->
  run w tr' = Some w' ->
  Inv w' /\ Listed w' /\ tests (comp w') = [] /\ issued tr' = 0%nat.
Proof.
  unfold issued.
  induction tr' as [| e tr' IH]; simpl; intros w w' HI HL Hp Hts H.
  - injection H as <-. auto.
  - destruct (step w e) as [w1 |] eqn:E; [| discriminate].
    destruct (empty_list_idle w HI HL Hts) as (_ & _ & _ & _ & Htick).
    assert (He : is_tick e = false).
    { destruct e; try reflexivity. rewrite Htick in E. discriminate. }
    rewrite He.
    destruct (step_tests_fixed w e w1 Hp E) as [Hts1 Hp1].
    apply (IH w1 w'); auto.
    + eapply step_Inv; eauto.
    + eapply step_Listed; eauto.
    + congruence.
Qed.

(** X6.  If the test list came back empty or failed to load, live mode
    can never be started during this mount: whatever happens afterwards,
    live mode stays off, no interval runs, no request is sent and Start
    Live stays disabled. *)
Theorem no_tests_no_live
    (tr : list Event) (w : World) (tr' : list Event) (w' : World) :
  run init tr = Some w ->
  testsPending w = false ->
  tests (comp w) = [] ->
  run w tr' = Some w' ->
  live (comp w') = false
  /\ armed w' = false
  /\ step w' ClickStart = None
  /\ issued tr' = 0%nat.
Proof.
  intros Hrun Hp Hts H.
  destruct (run_Inv_Listed tr init w Inv_init Listed_init Hrun) as [HI HL].
  destruct (idle_forever tr' w w' HI HL Hp Hts H) as (HI' & HL' & Hts' & Hn).
  destruct (empty_list_idle w' HI' HL' Hts') as (_ & Hl & Ha & Hs & _).
  auto.
Qed.

Lemma no_tests_no_live_witness :
  let tr := [TestsFailed] in
  let tr' := [SelectSystem Sys2; Unmount] in
  exists w w', run init tr = Some w /\ run w tr' = Some w'
    /\ live (comp w') = false /\ step w' ClickStart = None.
Proof.
  intros tr tr'.
  let x := eval vm_compute in (Scenario.world_after tr) in pose (w := x).
  let x := eval vm_compute in (Scenario.world_after (tr ++ tr')) in pose (w' := x).
  assert (Hrun : run init tr = Some w) by (vm_compute; reflexivity).
  assert (Hrun' : run w tr' = Some w') by (vm_compute; reflexivity).
  destruct (no_tests_no_live tr w tr' w' Hrun eq_refl eq_refl Hrun')
    as (Hl & _ & Hs & _).
  exists w, w'. auto.
Defined.

(** ** After the view is gone *)

Lemma step_unmounted w e w' :
  Inv w -> mounted w = false -> step w e = Some w' ->
  mounted w' = false /\ is_tick e = false.
Proof.
  intros HI Hm H.
  assert (Htm : timer w = None).
  { destruct (timer w) as [t |] eqn:E; [| reflexivity].
    destruct (inv_timer w HI t E) as (Hm' & _). congruence. }
  destruct e; step_inv H; subst w'; rewrite ?Hm in *; try discriminate;
    try (split; [exact Hm | reflexivity]).
  unfold next_request in Hsome. rewrite Htm in Hsome. discriminate.
Qed.

Lemma unmounted_forever tr' : forall w w',
  Inv w -> mounted w = false -> run w tr' = Some w' ->
  Inv w' /\ mounted w' = false /\ issued tr' = 0%nat.
Proof.
  unfold issued.
  induction tr' as [| e tr' IH]; simpl; intros w w' HI Hm H.
  - injection H as <-. auto.
  - destruct (step w e) as [w1 |] eqn:E; [| discriminate].
    destruct (step_unmounted w e w1 HI Hm E) as [Hm1 He]. rewrite He.
    apply (IH w1 w'); auto. eapply step_Inv; eauto.
Qed.

(** X7.  Once the view has been unmounted, polling is over for good:
    whatever happens afterwards, no interval runs and no further request
    is sent; the requests still pending can only settle, so their number
    goes down by one with each answer or failure. *)
Theorem no_polling_after_unmount
    (tr : list Event) (w : World) (tr' : list Event) (w' : World) :
  run init tr = Some w ->
  mounted w = false ->
  run w tr' = Some w' ->
  mounted w' = false
  /\ armed w' = false
  /\ step w' Tick = None
  /\ issued tr' = 0%nat
  /\ (length (inflight w') + settled tr' = length (inflight w))%nat.
Proof.
  intros Hrun Hm H.
  pose proof (reachable_Inv w (ex_intro _ tr Hrun)) as HI.
  destruct (unmounted_forever tr' w w' HI Hm H) as (HI' & Hm' & Hn).
  assert (Htm : timer w' = None).
  { destruct (timer w') as [t |] eqn:E; [| reflexivity].
    destruct (inv_timer w' HI' t E) as (Hm'' & _). congruence. }
  pose proof (run_count tr' w w' H) as Hc. rewrite Hn in Hc.
  repeat split; auto.
  - unfold armed. now rewrite Htm.
  - unfold step, next_request. now rewrite Htm.
  - lia.
Qed.

Lemma no_polling_after_unmount_witness :
  let tr := Scenario.started ++ [Tick; Tick; Unmount] in
  let tr' := [Resolve 1 [Scenario.row 1] "10:00:05"%string; Reject 0] in
  exists w w', run init tr = Some w /\ run w tr' = Some w'
    /\ length (inflight w) = 2%nat /\ inflight w' = [] /\ step w' Tick = None.
Proof.
  intros tr tr'.
  let x := eval vm_compute in (Scenario.world_after tr) in pose (w := x).
  let x := eval vm_compute in (Scenario.world_after (tr ++ tr')) in pose (w' := x).
  assert (Hrun : run init tr = Some w) by (vm_compute; reflexivity).
  assert (Hrun' : run w tr' = Some w') by (vm_compute; reflexivity).
  destruct (no_polling_after_unmount tr w tr' w' Hrun eq_refl Hrun')
    as (_ & _ & Ht & _).
  exists w, w'. repeat split; auto.
Defined.

(** ** The chart series *)



(** ** Sorted accumulation *)

Lemma ascending_head a l :
  ascending (a :: l) = true -> Forall (fun x => a < x) l /\ ascending l = true.
Proof.
  revert a. induction l as [| b l IH]; intros a H; [split; [constructor | reflexivity] |].
  cbn [ascending] in H. apply andb_prop in H as [Hab Hl].
  apply Z.ltb_lt in Hab. destruct (IH b Hl) as [Hb _].
  split; [| exact Hl]. constructor; [exact Hab |].
  eapply Forall_impl; [| exact Hb]. simpl. intros; lia.
Qed.

Lemma ascending_NoDup l : ascending l = true -> NoDup l.
Proof.
  induction l as [| a l IH]; intros H; [constructor |].
  destruct (ascending_head a l H) as [Ha Hl].
  constructor; [| now apply IH].
  intros Hin. rewrite Forall_forall in Ha. specialize (Ha a Hin). lia.
Qed.

Lemma ascending_app l1 : forall l2,
  ascending l1 = true -> ascending l2 = true ->
  (forall x y, In x l1 -> In y l2 -> x < y) ->
  ascending (l1 ++ l2) = true.
Proof.
  induction l1 as [| a l1 IH]; intros l2 H1 H2 Hlt; [exact H2 |].
  destruct l1 as [| b l1].
  - destruct l2 as [| y l2]; [reflexivity |].
    change (ascending (a :: y :: l2) = true). cbn [ascending].
    apply andb_true_intro. split; [| exact H2].
    apply Z.ltb_lt. apply Hlt; now left.
  - change (ascending (a :: b :: (l1 ++ l2)) = true). cbn [ascending].
    cbn [ascending] in H1. apply andb_prop in H1 as [Hab Hl1].
    apply andb_true_intro. split; [exact Hab |].
    apply (IH l2 Hl1 H2). intros x y Hx Hy. apply Hlt; [now right | exact Hy].
Qed.

Lemma append_sorted c rows now :
  Forall (fun q => idx q <= lastIdxRef c) (data c) ->
  ascending (map idx (data c)) = true ->
  forallb (fun p => lastIdxRef c <? idx p) rows = true ->
  ascending (map idx rows) = true ->
  ascending (map idx (data (append c rows now))) = true.
Proof.
  intros Hb Hs Habove Hasc. rewrite append_data, map_app.
  apply ascending_app; auto.
  intros x y Hx Hy.
  apply in_map_iff in Hx as (q & <- & Hq). apply in_map_iff in Hy as (p & <- & Hp).
  rewrite Forall_forall in Hb. specialize (Hb q Hq).
  rewrite forallb_forall in Habove. specialize (Habove p Hp).
  apply Z.ltb_lt in Habove. simpl in Hb. lia.
Qed.

Lemma polls_honest_sorted bs : forall w,
  mounted w = true ->
  Forall (fun q => idx q <= lastIdxRef (comp w)) (data (comp w)) ->
  ascending (map idx (data (comp w))) = true ->
  honest w bs = true ->
  exists w', polls w bs = Some w'
    /\ ascending (map idx (data (comp w'))) = true.
Proof.
  induction bs as [| [rows now] bs IH]; intros w Hm Hb Hs Hh.
  - exists w. split; [reflexivity | exact Hs].
  - simpl in Hh. destruct (next_request w) as [r |] eqn:Hr; [| discriminate].
    assert (Hfrom : from_idx r = lastIdxRef (comp w)).
    { unfold next_request in Hr. destruct (timer w); [| discriminate].
      now injection Hr as <-. }
    rewrite (poll_eq w r rows now Hm Hr) in Hh. simpl polls.
    rewrite (poll_eq w r rows now Hm Hr).
    apply andb_prop in Hh as [Hh Hrest]. apply andb_prop in Hh as [Hne Hok].
    unfold live_series_ok in Hok.
    apply andb_prop in Hok as [Hok _]. apply andb_prop in Hok as [Habove Hasc].
    rewrite Hfrom in Habove.
    assert (Hrows : rows <> []) by (destruct rows; [discriminate | congruence]).
    destruct (append_bounded (comp w) rows now Hb Hrows Habove Hasc) as [_ Hb'].
    pose proof (append_sorted (comp w) rows now Hb Hs Habove Hasc) as Hs'.
    apply IH in Hrest as (w' & Hp & Hs''); [| reflexivity | exact Hb' | exact Hs'].
    exists w'. split; assumption.
Qed.

(** X9.  In a session begun by Start Live and polled without overlap,
    every answer being non-empty and within the backend's contract for
    its request, the accumulated sequence is strictly ascending in [idx]:
    no sample is stored twice and none is out of order. *)
Theorem store_sorted_without_overlap
    (w0 w : World) (bs : list (list Point * string)) :
  step w0 ClickStart = Some w ->
  honest w bs = true ->
  exists w1, polls w bs = Some w1
    /\ ascending (map idx (data (comp w1))) = true
    /\ NoDup (map idx (data (comp w1))).
Proof.
  intros Hstart Hh.
  destruct (start_resets w0 w Hstart) as (Hm & Hd & _).
  assert (Hb : Forall (fun q => idx q <= lastIdxRef (comp w)) (data (comp w)))
    by (rewrite Hd; constructor).
  assert (Hs : ascending (map idx (data (comp w))) = true)
    by (rewrite Hd; reflexivity).
  destruct (polls_honest_sorted bs w Hm Hb Hs Hh) as (w1 & Hp & Hs1).
  exists w1. repeat split; auto. now apply ascending_NoDup.
Qed.

Lemma store_sorted_without_overlap_witness :
  exists w0 w w1,
    step w0 ClickStart = Some w
    /\ polls w Scenario.two_batches = Some w1
    /\ map idx (data (comp w1)) = [1; 2; 3; 5]
    /\ NoDup (map idx (data (comp w1))).
Proof.
  let x := eval vm_compute in
    (Scenario.world_after [TestsLoaded [Scenario.testA; Scenario.testB]]) in
  pose (w0 := x).
  let x := eval vm_compute in (Scenario.world_after Scenario.started) in
  pose (w := x).
  assert (Hs : step w0 ClickStart = Some w) by (vm_compute; reflexivity).
  assert (Hh : honest w Scenario.two_batches = true) by (vm_compute; reflexivity).
  destruct (store_sorted_without_overlap w0 w Scenario.two_batches Hs Hh)
    as (w1 & Hp & _ & Hnd).
  exists w0, w, w1. split; [exact Hs |]. split; [exact Hp |]. split; [| exact Hnd].
  assert (E : Some w1 = polls w Scenario.two_batches) by (symmetry; exact Hp).
  vm_compute in E. injection E as ->. reflexivity.
Defined.

(** * The stored-series viewer *)

(** X10.  The stored-series viewer derives the two brush averages
    exactly as the live viewer does from the same readings; its voltage
    drop is the backend's [vdrop] whenever the row carries one, and
    otherwise the same mean of the three taps, or absence, as in the live
    viewer. *)
Theorem viewers_derive_alike (p : TestViewer.BackendSeriesPoint) (q : Point) :
  TestViewer.same_readings p q ->
  TestViewer.u_hv_minus_avg (TestViewer.toUiPoint p) = hv_minus_avg (Derive.derive q)
  /\ TestViewer.u_hv_plus_avg (TestViewer.toUiPoint p) = hv_plus_avg (Derive.derive q)
  /\ (TestViewer.s_vdrop p = None ->
      TestViewer.u_vdrop (TestViewer.toUiPoint p) = vdrop (Derive.derive q))
  /\ (forall v, TestViewer.s_vdrop p = Some v ->
        TestViewer.u_vdrop (TestViewer.toUiPoint p) = Some v)
  /\ TestViewer.u_raw (TestViewer.toUiPoint p) = p.
Proof.
  intros (H1 & H2 & H3 & H4 & H5 & H6 & H7).
  unfold TestViewer.toUiPoint, Derive.derive. simpl.
  rewrite H1, H2, H3, H4, H5, H6, H7.
  repeat split.
  - intros ->. reflexivity.
  - intros v ->. reflexivity.
Qed.

Lemma viewers_derive_alike_witness :
  let p := TestViewer.mkSeriesPoint 40 None None None None None
             (Some 1%float) (Some 2%float) (Some 3%float)
             (Some 40%float) (Some 50%float) None (Some 60%float)
             None None None in
  let q := Derive.sample 40 (Some 1%float) (Some 2%float) (Some 3%float)
             (Some 40%float) (Some 50%float) None (Some 60%float) in
  TestViewer.u_vdrop (TestViewer.toUiPoint p) = Some 2%float
  /\ TestViewer.u_hv_minus_avg (TestViewer.toUiPoint p) = Some 45%float
  /\ TestViewer.u_t_hour (TestViewer.toUiPoint p) = (40 * TestViewer.DT_SEC / 3600)%float.
Proof.
  intros p q.
  assert (H : TestViewer.same_readings p q) by (repeat split).
  destruct (viewers_derive_alike p q H) as (Hm & _ & Hv & _).
  split; [rewrite (Hv eq_refl); reflexivity |].
  split; [rewrite Hm; reflexivity | reflexivity].
Defined.

(** * The sidebar menu *)

(** X11.  Whatever the current path, at most one menu entry is
    highlighted; every entry is highlighted on its own target, and the
    Upload entry is highlighted on the root path as well. *)
Theorem one_menu_entry_active :
  (forall pathname i j,
     Sidebar.active i pathname = true -> Sidebar.active j pathname = true -> i = j)
  /\ (forall i, Sidebar.active i (Sidebar.to i) = true)
  /\ Sidebar.active Sidebar.NavUpload "/" = true.
Proof.
  split; [| split; [intros []; reflexivity | reflexivity]].
  intros pathname i j Hi Hj.
  destruct i, j; try reflexivity; simpl in Hi, Hj;
    repeat match goal with
      | H : _ || _ = true |- _ => apply orb_prop in H as [H | H]
      | H : String.eqb _ _ = true |- _ => apply String.eqb_eq in H
      end;
    congruence.
Qed.

Lemma one_menu_entry_active_witness :
  Sidebar.active Sidebar.NavLive "/live" = true
  /\ forall j, Sidebar.active j "/live" = true -> j = Sidebar.NavLive.
Proof.
  split; [reflexivity |].
  intros j Hj. symmetry.
  exact (proj1 one_menu_entry_active "/live"%string Sidebar.NavLive j eq_refl Hj).
Defined.

(** * The characterization page *)

Section CharacterizationFacts.

Import Characterization.

Variable R : Type.

Lemma get_set_same {A} (s : PerLife A) l v : get (set s l v) l = v.
Proof. destruct l; reflexivity. Qed.

Lemma get_set_other {A} (s : PerLife A) l l' v :
  l <> l' -> get (set s l v) l' = get s l'.
Proof. destruct l, l'; intros H; try reflexivity; congruence. Qed.

(** X12.  Loading one life stage never touches the other two: starting
    the load, its success and its failure each leave the stored
    response, the loading flag and the error text of every other life
    stage as they were. *)
Theorem loadLife_leaves_other_lives
    (st : State R) (life other : Life)
    (res : R) (detail : option string) (message : string) :
  life <> other ->
  let unchanged (st' : State R) :=
    get (resp st') other = get (resp st) other
    /\ get (loading st') other = get (loading st) other
    /\ get (error st') other = get (error st) other
    /\ selected st' = selected st in
  unchanged (loadLife_begin st life)
  /\ unchanged (loadLife_ok st life res)
  /\ unchanged (loadLife_fail st life detail message).
Proof.
  intros Hne. cbv zeta. unfold loadLife_begin, loadLife_ok, loadLife_fail.
  destruct (selected st) eqn:Hsel; cbn [resp loading error selected];
    rewrite ?get_set_other by exact Hne; repeat split; assumption.
Qed.

(** X13.  A load that runs alone ends in one of two states: on success
    the response is stored, the loading flag is off and no error is
    shown; on failure the stored response is cleared, the loading flag
    is off and a non-empty error text is shown.  With no test selected
    the load does nothing. *)
Theorem loadLife_outcome
    (st : State R) (life : Life) (res : R)
    (detail : option string) (message : string) :
  (selected st <> None ->
     let ok := loadLife_ok (loadLife_begin st life) life res in
     let ko := loadLife_fail (loadLife_begin st life) life detail message in
     get (resp ok) life = Some res
     /\ get (loading ok) life = false
     /\ shows_error ok life = false
     /\ get (resp ko) life = None
     /\ get (loading ko) life = false
     /\ shows_error ko life = true)
  /\ (selected st = None -> loadLife_begin st life = st).
Proof.
  split.
  - intros Hsel. cbv zeta. unfold loadLife_begin, loadLife_ok, loadLife_fail, shows_error.
    destruct (selected st); [| congruence]. cbn [resp loading error selected].
    rewrite !get_set_same. repeat split.
  - intros Hsel. unfold loadLife_begin. now rewrite Hsel.
Qed.

(** X14.  When two loads of the same life stage overlap and the one that
    fails settles before the one that succeeds, the page ends up showing
    the stored response together with the error text of the failed
    load: success does not clear the error. *)
Theorem overlapping_loads_keep_error
    (st : State R) (life : Life) (res : R)
    (detail : option string) (message : string) :
  selected st <> None ->
  let st' :=
    loadLife_ok
      (loadLife_fail (loadLife_begin (loadLife_begin st life) life)
         life detail message)
      life res in
  get (resp st') life = Some res
  /\ get (loading st') life = false
  /\ shows_error st' life = true.
Proof.
  intros Hsel. cbv zeta. unfold loadLife_begin, loadLife_ok, loadLife_fail, shows_error.
  destruct (selected st); [| congruence]. cbn [resp loading error selected].
  rewrite !get_set_same. repeat split.
Qed.

End CharacterizationFacts.

(** * The upload page *)

Section UploadFacts.

Import Upload.

Local Open Scope string_scope.
Local Open Scope nat_scope.

Lemma toLowerCase_app a b : toLowerCase (a ++ b) = toLowerCase a ++ toLowerCase b.
Proof. induction a as [| c a IH]; simpl; [reflexivity | now rewrite IH]. Qed.

Lemma length_toLowerCase s : String.length (toLowerCase s) = String.length s.
Proof. induction s as [| c s IH]; simpl; [reflexivity | now rewrite IH]. Qed.

Lemma length_app_string a b :
  String.length (a ++ b) = String.length a + String.length b.
Proof. induction a as [| c a IH]; simpl; [reflexivity | now rewrite IH]. Qed.

Lemma substring_all s : substring 0 (String.length s) s = s.
Proof. induction s as [| c s IH]; simpl; [reflexivity | now rewrite IH]. Qed.

Lemma substring_skip a b m :
  substring (String.length a) m (a ++ b) = substring 0 m b.
Proof. induction a as [| c a IH]; simpl; [reflexivity | exact IH]. Qed.

Lemma substring_split s : forall k,
  k <= String.length s ->
  s = substring 0 k s ++ substring k (String.length s - k) s.
Proof.
  induction s as [| c s IH]; intros k Hk.
  - destruct k; reflexivity.
  - destruct k as [| k].
    + simpl. now rewrite substring_all.
    + simpl in *. f_equal. apply IH. lia.
Qed.

Lemma toLowerCase_substring s : forall k m,
  toLowerCase (substring k m s) = substring k m (toLowerCase s).
Proof.
  induction s as [| c s IH]; intros k m.
  - destruct k, m; reflexivity.
  - destruct k as [| k].
    + destruct m as [| m]; simpl; [reflexivity | now rewrite IH].
    + simpl. apply IH.
Qed.

Lemma endsWith_app a b : endsWith (a ++ b) b = true.
Proof.
  unfold endsWith. rewrite length_app_string.
  replace (String.length a + String.length b - String.length b)
    with (String.length a) by lia.
  rewrite substring_skip, substring_all, String.eqb_refl.
  rewrite andb_true_r. apply Nat.leb_le. lia.
Qed.

Lemma endsWith_split s suffix :
  endsWith s suffix = true ->
  s = substring 0 (String.length s - String.length suffix) s ++ suffix.
Proof.
  unfold endsWith. intros H. apply andb_prop in H as [Hle He].
  apply Nat.leb_le in Hle. apply String.eqb_eq in He.
  assert (Hk : String.length s - String.length suffix <= String.length s) by lia.
  pose proof (substring_split s _ Hk) as Hs.
  replace (String.length s - (String.length s - String.length suffix))
    with (String.length suffix) in Hs by lia.
  now rewrite He in Hs.
Qed.

Lemma isAllowed_iff f :
  isAllowed f = true <->
  exists base ext, f_name f = base ++ ext /\ In (toLowerCase ext) EXTENSIONS.
Proof.
  unfold isAllowed, EXTENSIONS. cbv zeta. split.
  - intros H.
    assert (Hs : exists suffix, In suffix [".csv"; ".txt"; ".xlsx"; ".xls"]
                   /\ endsWith (toLowerCase (f_name f)) suffix = true).
    { repeat (apply orb_prop in H as [H | H]);
        eexists; (split; [| exact H]); simpl; auto. }
    destruct Hs as (suffix & Hin & He).
    pose proof He as He'. unfold endsWith in He'.
    apply andb_prop in He' as [Hle Hsub].
    apply Nat.leb_le in Hle. apply String.eqb_eq in Hsub.
    rewrite length_toLowerCase in Hle, Hsub.
    set (k := String.length (f_name f) - String.length suffix) in *.
    exists (substring 0 k (f_name f)),
           (substring k (String.length suffix) (f_name f)).
    split.
    + assert (Hk : k <= String.length (f_name f)) by (unfold k; lia).
      pose proof (substring_split (f_name f) k Hk) as Hs.
      replace (String.length (f_name f) - k) with (String.length suffix) in Hs
        by (unfold k; lia).
      exact Hs.
    + rewrite toLowerCase_substring, Hsub. exact Hin.
  - intros (base & ext & Hn & Hin).
    rewrite Hn, toLowerCase_app.
    simpl in Hin. destruct Hin as [E | [E | [E | [E | []]]]]; rewrite <- E;
      rewrite ?endsWith_app, ?orb_true_r; reflexivity.
Qed.

(** X15.  A file whose name is made of ASCII characters is accepted by the
    upload page exactly when its name ends, in any mix of upper and lower
    case, with [.csv], [.txt], [.xlsx] or [.xls]; in particular a name
    shorter than four characters is rejected. *)
Theorem isAllowed_by_extension (f : File) :
  ascii_only (f_name f) = true ->
  (isAllowed f = true <->
   exists base ext, f_name f = base ++ ext /\ In (toLowerCase ext) EXTENSIONS)
  /\ (String.length (f_name f) < 4 -> isAllowed f = false).
Proof.
  intros _. split; [apply isAllowed_iff |].
  intros Hlen. destruct (isAllowed f) eqn:E; [| reflexivity].
  apply isAllowed_iff in E as (base & ext & Hn & Hin).
  rewrite Hn, length_app_string in Hlen.
  assert (4 <= String.length ext).
  { rewrite <- length_toLowerCase.
    simpl in Hin. destruct Hin as [E | [E | [E | [E | []]]]]; rewrite <- E;
      simpl; lia. }
  lia.
Qed.

Lemma onSelectFile_allowed st f g :
  (forall h, file st = Some h -> isAllowed h = true) ->
  file (onSelectFile st f) = Some g -> isAllowed g = true.
Proof.
  intros Hst. unfold onSelectFile. destruct f as [f' |]; [| apply Hst].
  destruct (isAllowed f') eqn:E; simpl; [| discriminate].
  now intros [= <-].
Qed.

Lemma step_keeps_allowed st e :
  (forall h, file st = Some h -> isAllowed h = true) ->
  (forall h, file (fst (step st e)) = Some h -> isAllowed h = true)
  /\ (forall h, snd (step st e) = Some h -> isAllowed h = true).
Proof.
  intros Hst. destruct e; simpl.
  - split; [intros h; now apply onSelectFile_allowed | discriminate].
  - split; discriminate.
  - unfold upload. destruct (file st) as [f |] eqn:E; simpl.
    + split; intros h [= <-]; now apply Hst.
    + split; discriminate.
Qed.

Lemma posted_allowed es : forall st,
  (forall h, file st = Some h -> isAllowed h = true) ->
  Forall (fun h => isAllowed h = true) (posted st es).
Proof.
  induction es as [| e es IH]; intros st Hst; simpl; [constructor |].
  destruct (step_keeps_allowed st e Hst) as [Hnext Hpost].
  destruct (snd (step st e)) as [h |] eqn:E.
  - constructor; [now apply Hpost | now apply IH].
  - now apply IH.
Qed.

End UploadFacts.

(** X16.  Whatever the user selects, drops, resets or clicks on the
    upload page, every file that is put into a [POST /upload] has passed
    the extension check. *)
Theorem upload_posts_only_allowed (es : list Upload.Event) :
  Forall (fun h => Upload.isAllowed h = true) (Upload.posted Upload.initial es).
Proof.
  apply posted_allowed. simpl. discriminate.
Qed.

Lemma isAllowed_by_extension_witness :
  let f := Upload.mkFile "Bench_07.XLSX" "" 2048 in
  Upload.isAllowed f = true
  /\ Upload.isAllowed (Upload.mkFile "csv" "text/csv" 10) = false.
Proof.
  intro f.
  destruct (isAllowed_by_extension f eq_refl) as [Hiff _].
  destruct (isAllowed_by_extension (Upload.mkFile "csv" "text/csv" 10) eq_refl)
    as [_ Hshort].
  split.
  - apply Hiff. exists "Bench_07"%string, ".XLSX"%string.
    split; [reflexivity | simpl; auto].
  - apply Hshort. simpl. lia.
Defined.

(** Witnesses for the characterization page, at a numeric payload. *)
Lemma loadLife_leaves_other_lives_witness :
  let st := Characterization.mkState nat (Some 3)
              (Characterization.mkPerLife (Some 10%nat) (Some 20%nat) None)
              (Characterization.mkPerLife false false false)
              (Characterization.mkPerLife ""%string ""%string ""%string) in
  Characterization.get
    (Characterization.resp
       (Characterization.loadLife_fail st Characterization.bol None "timeout"))
    Characterization.mid
  = Some 20%nat.
Proof.
  intro st.
  assert (Hne : Characterization.bol <> Characterization.mid) by discriminate.
  destruct (loadLife_leaves_other_lives nat st Characterization.bol
              Characterization.mid 0%nat None "timeout"%string Hne)
    as (_ & _ & (Hr & _)).
  rewrite Hr. reflexivity.
Defined.

Lemma loadLife_outcome_witness :
  let st := Characterization.mkState nat (Some 3)
              (Characterization.mkPerLife (Some 10%nat) None None)
              (Characterization.mkPerLife false false false)
              (Characterization.mkPerLife ""%string ""%string ""%string) in
  Characterization.shows_error
    (Characterization.loadLife_fail
       (Characterization.loadLife_begin st Characterization.bol)
       Characterization.bol (Some ""%string) "Network Error")
    Characterization.bol
  = true.
Proof.
  intro st.
  assert (Hsel : Characterization.selected st <> None) by discriminate.
  destruct (loadLife_outcome nat st Characterization.bol 0%nat
              (Some ""%string) "Network Error"%string) as [H _].
  destruct (H Hsel) as (_ & _ & _ & _ & _ & He). exact He.
Defined.

Lemma overlapping_loads_keep_error_witness :
  let st := Characterization.mkState nat (Some 3)
              (Characterization.mkPerLife None None None)
              (Characterization.mkPerLife false false false)
              (Characterization.mkPerLife ""%string ""%string ""%string) in
  exists st',
    Characterization.get (Characterization.resp st') Characterization.eol = Some 7%nat
    /\ Characterization.shows_error st' Characterization.eol = true.
Proof.
  intro st.
  assert (Hsel : Characterization.selected st <> None) by discriminate.
  destruct (overlapping_loads_keep_error nat st Characterization.eol 7%nat
              None "Network Error"%string Hsel) as (Hr & _ & He).
  eexists. split; [exact Hr | exact He].
Defined.
